(** * scenedetect.scene_manager: the event ledger, scene assembly and the
      detection orchestrator of [SceneManager], embedded from
      [src/scenedetect/scene_manager.py]. *)

From Stdlib Require Import Ascii.
From stdpp Require Import base option numbers list sorting gmap strings.

Local Open Scope Z_scope.

(** ** Supporting types *)

(** Modelled from the spec: [FrameTimecode] (scenedetect.frame_timecode) is an
    exact frame position; every timecode of one manager carries the frame rate
    of the one video, so a timecode is its frame number, compared, added and
    subtracted as such. *)
Abbreviation FrameTimecode := Z (only parsing).

(** Modelled from the spec: [EventType] (scenedetect.scene_detector). *)
Inductive EventType : Set := IN | OUT | CUT.

Global Instance EventType_eq_dec : EqDecision EventType.
Proof. solve_decision. Defined.

(** The exceptions the embedded methods raise. *)
Inductive exception : Set :=
  | AssertionError
  | ValueError
  | TypeError
  | NotImplementedError.

(** Outcome of a call that returns a value or raises. *)
Inductive result (A : Type) : Type :=
  | Ok (a : A)
  | Raise (e : exception).
Arguments Ok {A} a.
Arguments Raise {A} e.

(** [o is not None] *)
Definition is_not_none {A : Type} (o : option A) : bool :=
  match o with
  | Some _ => true
  | None => false
  end.

(** A scene: [(start_time, end_time)]. *)
Abbreviation Scene := (Z * Z)%type (only parsing).

(** ** Helper functions *)

Definition DEFAULT_MIN_WIDTH : Z := 256.

Definition compute_downscale_factor (frame_width effective_width : Z) : result Z :=
  if bool_decide (frame_width < 1 ∨ effective_width < 1) then Raise AssertionError
  else if bool_decide (frame_width < effective_width) then Ok 1
  else Ok (frame_width `div` effective_width).

Section scene_manager.

(** Opaque detector payload of an event, decoded frames, the attached
    [StatsManager] handle, and the state of everything the manager only holds
    references to (the video stream, the detectors' internals, the metric
    cache contents, the progress bar). *)
Context {Ctx Frame StatsManager World : Type}.

(** Modelled from the spec: [DetectionEvent] (scenedetect.scene_detector). *)
Record DetectionEvent : Type := mkDetectionEvent {
  kind : EventType;
  time : FrameTimecode;
  context : Ctx;
}.

(** Modelled from the spec: the [SceneDetector] interface; each method acts on
    the shared world. *)
Record SceneDetector : Type := mkSceneDetector {
  process_frame : FrameTimecode → option Frame → World → list DetectionEvent * World;
  post_process : FrameTimecode → FrameTimecode → World → list DetectionEvent * World;
  is_processing_required : Z → World → bool;
}.

(** The fields of a [SceneManager] instance. *)
Record SceneManager : Type := mkSceneManager {
  events : gmap Z (list DetectionEvent);
  detectors : list SceneDetector;
  stats_manager : option StatsManager;
  start_pos : option FrameTimecode;
  last_pos : option FrameTimecode;
  base_timecode : option FrameTimecode;
  downscale : Z;
  auto_downscale : bool;
  only_cuts : bool;
}.

(** [SceneManager.__init__] *)
Definition init (stats : option StatsManager) : SceneManager :=
  {| events := ∅; detectors := []; stats_manager := stats;
     start_pos := None; last_pos := None; base_timecode := None;
     downscale := 1; auto_downscale := true; only_cuts := true |}.

Definition set_events (s : SceneManager) (m : gmap Z (list DetectionEvent)) : SceneManager :=
  {| events := m; detectors := detectors s; stats_manager := stats_manager s;
     start_pos := start_pos s; last_pos := last_pos s;
     base_timecode := base_timecode s; downscale := downscale s;
     auto_downscale := auto_downscale s; only_cuts := only_cuts s |}.

Definition set_only_cuts (s : SceneManager) (b : bool) : SceneManager :=
  {| events := events s; detectors := detectors s; stats_manager := stats_manager s;
     start_pos := start_pos s; last_pos := last_pos s;
     base_timecode := base_timecode s; downscale := downscale s;
     auto_downscale := auto_downscale s; only_cuts := b |}.

Definition set_start_pos (s : SceneManager) (p : option FrameTimecode) : SceneManager :=
  {| events := events s; detectors := detectors s; stats_manager := stats_manager s;
     start_pos := p; last_pos := last_pos s;
     base_timecode := base_timecode s; downscale := downscale s;
     auto_downscale := auto_downscale s; only_cuts := only_cuts s |}.

Definition set_last_pos (s : SceneManager) (p : option FrameTimecode) : SceneManager :=
  {| events := events s; detectors := detectors s; stats_manager := stats_manager s;
     start_pos := start_pos s; last_pos := p;
     base_timecode := base_timecode s; downscale := downscale s;
     auto_downscale := auto_downscale s; only_cuts := only_cuts s |}.

Definition set_base_timecode (s : SceneManager) (p : option FrameTimecode) : SceneManager :=
  {| events := events s; detectors := detectors s; stats_manager := stats_manager s;
     start_pos := start_pos s; last_pos := last_pos s;
     base_timecode := p; downscale := downscale s;
     auto_downscale := auto_downscale s; only_cuts := only_cuts s |}.

(** [SceneManager.clear] *)
Definition clear (s : SceneManager) : SceneManager :=
  set_only_cuts (set_start_pos (set_events s ∅) None) true.

(** ** The event ledger *)

(** One iteration of the loop of [add_events]. *)
Definition add_event (s : SceneManager) (event : DetectionEvent) : SceneManager :=
  let m := match events s !! time event with
           | None => <[time event := []]> (events s)
           | Some _ => events s
           end in
  let m := <[time event := default [] (m !! time event) ++ [event]]> m in
  let s := set_events s m in
  if bool_decide (kind event ≠ CUT) then set_only_cuts s false else s.

(** [SceneManager.add_events] *)
Definition add_events (s : SceneManager) (evs : list DetectionEvent) : SceneManager :=
  foldl add_event s evs.

(** ** Scene assembly *)

(** [sorted(self._events.keys())] *)
Definition sorted_keys (m : gmap Z (list DetectionEvent)) : list Z :=
  merge_sort Z.le (map_to_list m).*1.

(** The local variables of [get_scene_list] that live across the loops. *)
Record assembly : Type := mkAssembly {
  in_scene : bool;
  last_event_pos : FrameTimecode;
  scene_list : list Scene;
}.

(** Body of the inner loop, for one [event] at [timecode]; [added] is
    [added_new_scene]. *)
Definition on_event (timecode : Z) (st : assembly * bool) (event : DetectionEvent)
  : assembly * bool :=
  let '(a, added) := st in
  match kind event with
  | IN => (mkAssembly true timecode (scene_list a), added)
  | OUT =>
      let new_start_pos := last_event_pos a in
      if in_scene a then
        if added then (mkAssembly false timecode (scene_list a), added)
        else (mkAssembly false timecode (scene_list a ++ [(new_start_pos, timecode)]), true)
      else st
  | CUT =>
      if in_scene a then
        if added then (mkAssembly true timecode (scene_list a), added)
        else (mkAssembly true timecode (scene_list a ++ [(last_event_pos a, timecode)]), true)
      else st
  end.

(** Body of the outer loop, for one [timecode] of the ledger [m]. *)
Definition on_timecode (m : gmap Z (list DetectionEvent)) (a : assembly) (timecode : Z)
  : assembly :=
  (foldl (on_event timecode) (a, false) (default [] (m !! timecode))).1.

(** The loops over all events, from the initial locals. *)
Definition assemble (s : SceneManager) (start : FrameTimecode) : assembly :=
  foldl (on_timecode (events s))
        (mkAssembly (if only_cuts s then true else false) start [])
        (sorted_keys (events s)).

(** [SceneManager.get_scene_list] *)
Definition get_scene_list (always_include_end : bool) (s : SceneManager)
  : result (list Scene) :=
  if bool_decide (events s = ∅) then Ok []
  else
    match start_pos s with
    | None => Raise AssertionError
    | Some start =>
        let a := assemble s start in
        if in_scene a && always_include_end then
          match last_pos s with
          | None => Raise TypeError
          | Some last => Ok (scene_list a ++ [(last_event_pos a, last + 1)])
          end
        else Ok (scene_list a)
    end.

(** The comprehension [cuts] of [get_cut_list]: the sorted timecodes that hold
    a CUT event. *)
Definition cut_timecodes (s : SceneManager) : list Z :=
  filter (λ event_time,
            existsb (λ event, bool_decide (kind event = CUT))
                    (default [] (events s !! event_time)) = true)
         (sorted_keys (events s)).

(** Body of the loop of [get_cut_list]; [filtered_cuts[-1]] exists, the list
    starting from [cuts[0:1]] of at least two cuts. *)
Definition keep_spaced (minimum_spacing : Z) (filtered_cuts : list Z) (cut : Z) : list Z :=
  match last filtered_cuts with
  | Some kept =>
      if bool_decide (cut - kept >= minimum_spacing) then filtered_cuts ++ [cut]
      else filtered_cuts
  | None => filtered_cuts
  end.

(** [SceneManager.get_cut_list] *)
Definition get_cut_list (minimum_spacing : Z) (s : SceneManager) : list Z :=
  let cuts := cut_timecodes s in
  if bool_decide (minimum_spacing > 1) && bool_decide (1 < length cuts)%nat then
    foldl (keep_spaced minimum_spacing) (take 1 cuts) (drop 1 cuts)
  else cuts.

(** [SceneManager.transform_events_to_cuts]; [Float] stands for the type of a
    non-None [fade_bias], which the method never inspects.  The state after
    the call is returned next to the outcome, also when it raises. *)
Definition transform_events_to_cuts {Float : Type} (fade_bias : option Float)
    (s : SceneManager) : result unit * SceneManager :=
  match fade_bias with
  | None =>
      (Ok (),
       set_events s
         (fmap (M := gmap Z)
               (map (λ event, mkDetectionEvent CUT (time event) (context event)))
               (events s)))
  | Some _ => (Raise NotImplementedError, s)
  end.

(** ** The detection orchestrator *)

(** Modelled from the spec: the frame source ([VideoStream]); its properties
    read the world, its methods change it.  [video_read] is [read()] (a frame,
    or [None] for the end-of-stream sentinel), [video_read_nodecode] is
    [read(decode=False)]. *)
Record VideoStream : Type := mkVideoStream {
  video_base_timecode : World → FrameTimecode;
  video_frame_number : World → Z;
  video_position : World → FrameTimecode;
  video_duration : World → option FrameTimecode;
  video_frame_size : World → Z * Z;
  video_read : World → option Frame * World;
  video_read_nodecode : World → bool * World;
  video_grab : World → bool * World;
}.

(** Modelled from the spec: the progress bar of [scenedetect.platform.tqdm]. *)
Record ProgressBar : Type := mkProgressBar {
  tqdm_new : Z → World → World;
  tqdm_update : World → World;
  tqdm_close : World → World;
}.

(** The [tqdm] module, when installed, and the strided slice
    [frame_im[::n, ::n, :]]. *)
Variables (tqdm : option ProgressBar) (subsample : Z → Frame → Frame).

(** [SceneManager._is_processing_required] *)
Definition _is_processing_required (s : SceneManager) (frame_num : Z) (w : World) : bool :=
  match stats_manager s with
  | None => true
  | Some _ =>
      forallb (λ detector, is_processing_required detector frame_num w) (detectors s)
  end.

(** [SceneManager._process_frame] *)
Definition _process_frame (timecode : FrameTimecode) (frame_im : option Frame)
    (callback : option (option Frame → Z → World → World))
    (st : SceneManager * World) : SceneManager * World :=
  foldl (λ '(s, w) detector,
           let '(evs, w) := process_frame detector timecode frame_im w in
           let s := add_events s evs in
           match evs, callback with
           | _ :: _, Some call => (s, call frame_im timecode w)
           | _, _ => (s, w)
           end)
        st (detectors st.1).

(** [SceneManager._post_process] *)
Definition _post_process (start_time end_time : FrameTimecode)
    (st : SceneManager * World) : SceneManager * World :=
  foldl (λ '(s, w) detector,
           let '(evs, w) := post_process detector start_time end_time w in
           (add_events s evs, w))
        st (detectors st.1).

Definition progress_update (progress_bar : option ProgressBar) (w : World) : World :=
  match progress_bar with
  | Some bar => tqdm_update bar w
  | None => w
  end.

(** The [for _ in range(frame_skip)] loop of [detect_scenes]. *)
Fixpoint skip_frames (video : VideoStream) (progress_bar : option ProgressBar)
    (n : nat) (w : World) : World :=
  match n with
  | O => w
  | S n =>
      let '(grabbed, w) := video_grab video w in
      if grabbed then skip_frames video progress_bar n (progress_update progress_bar w)
      else w
  end.

(** The [while True] loop of [detect_scenes]; [None] when it has not ended
    within [fuel] iterations. *)
Fixpoint frame_loop (fuel : nat) (video : VideoStream) (downscale_factor : Z)
    (end_time : option FrameTimecode) (frame_skip : Z)
    (progress_bar : option ProgressBar)
    (callback : option (option Frame → Z → World → World))
    (frame_im : option Frame) (s : SceneManager) (w : World)
  : option (SceneManager * World) :=
  match fuel with
  | O => None
  | S fuel =>
      let fetched : option (option Frame) * World :=
        if _is_processing_required s (video_frame_number video w) w
           || _is_processing_required s (video_frame_number video w + 1) w
        then
          match video_read video w with
          | (None, w) => (None, w)
          | (Some im, w) =>
              (Some (Some (if bool_decide (downscale_factor > 1)
                           then subsample downscale_factor im else im)), w)
          end
        else
          match video_read_nodecode video w with
          | (false, w) => (None, w)
          | (true, w) => (Some frame_im, w)
          end in
      match fetched with
      | (None, w) => Some (s, w)
      | (Some frame_im, w) =>
          let s := match start_pos s with
                   | None => set_start_pos s (Some (video_position video w))
                   | Some _ => s
                   end in
          let '(s, w) := _process_frame (video_position video w) frame_im callback (s, w) in
          let w := progress_update progress_bar w in
          let w := if bool_decide (frame_skip > 0)
                   then skip_frames video progress_bar (Z.to_nat frame_skip) w
                   else w in
          match end_time with
          | Some e =>
              if bool_decide (video_position video w >= e) then Some (s, w)
              else frame_loop fuel video downscale_factor end_time frame_skip
                              progress_bar callback frame_im s w
          | None =>
              frame_loop fuel video downscale_factor end_time frame_skip
                         progress_bar callback frame_im s w
          end
      end
  end.

(** [SceneManager.detect_scenes]: the outcome with the manager and the world
    as the call leaves them; [None] when the frame loop has not ended within
    [fuel] iterations. *)
Definition detect_scenes (fuel : nat) (video : VideoStream)
    (duration end_time : option Z) (frame_skip : Z) (show_progress : bool)
    (callback : option (option Frame → Z → World → World))
    (s : SceneManager) (w : World)
  : option (result Z * SceneManager * World) :=
  if bool_decide (frame_skip > 0) && is_not_none (stats_manager s)
  then Some (Raise ValueError, s, w)
  else if is_not_none duration && is_not_none end_time
  then Some (Raise ValueError, s, w)
  else if match duration with Some d => bool_decide (d < 0) | None => false end
  then Some (Raise ValueError, s, w)
  else if match end_time with Some e => bool_decide (e < 0) | None => false end
  then Some (Raise ValueError, s, w)
  else
    let s := set_base_timecode s (Some (video_base_timecode video w)) in
    let start_frame_num := video_frame_number video w in
    let end_time := match duration with
                    | Some d => Some (d + start_frame_num)
                    | None => end_time
                    end in
    let end_time := (λ e, video_base_timecode video w + e) <$> end_time in
    let total_frames :=
      match video_duration video w with
      | Some total =>
          match end_time with
          | Some e =>
              if bool_decide (e < total) then (e - start_frame_num) + 1
              else total - start_frame_num
          | None => total - start_frame_num
          end
      | None => 0
      end in
    let factor := if auto_downscale s
                  then compute_downscale_factor (video_frame_size video w).1
                                                DEFAULT_MIN_WIDTH
                  else Ok (downscale s) in
    match factor with
    | Raise e => Some (Raise e, s, w)
    | Ok downscale_factor =>
        let progress_bar := if show_progress then tqdm else None in
        let w := match progress_bar with
                 | Some bar => tqdm_new bar total_frames w
                 | None => w
                 end in
        match frame_loop fuel video downscale_factor end_time frame_skip
                         progress_bar callback None s w with
        | None => None
        | Some (s, w) =>
            let start := match start_pos s with
                         | None => video_position video w
                         | Some start => start
                         end in
            let s := set_start_pos s (Some start) in
            let '(s, w) := _post_process start (video_position video w) (s, w) in
            let w := match progress_bar with
                     | Some bar => tqdm_close bar w
                     | None => w
                     end in
            let s := set_last_pos s (Some (video_position video w)) in
            Some (Ok (video_frame_number video w - start_frame_num), s, w)
        end
    end.

End scene_manager.

Arguments DetectionEvent : clear implicits.
Arguments SceneDetector : clear implicits.
Arguments SceneManager : clear implicits.
Arguments VideoStream : clear implicits.
Arguments ProgressBar : clear implicits.

(** ** Properties of scene lists, cut lists and ledgers *)

(** A scene is a non-empty half-open interval. *)
Definition scene_nonempty (sc : Scene) : Prop := sc.1 < sc.2.

(** Consecutive scenes do not overlap: [end[i] <= start[i+1]]. *)
Definition scenes_chained (scenes : list Scene) : Prop :=
  ∀ (i : nat) (a b : Scene),
    scenes !! i = Some a → scenes !! S i = Some b → a.2 ≤ b.1.

(** The scenes of a list whose closing boundary is [timecode]. *)
Definition ending_at (timecode : Z) (scenes : list Scene) : list Scene :=
  filter (λ sc, sc.2 = timecode) scenes.

(** The events of an arrival sequence that carry [timecode], in arrival order. *)
Definition arrivals {Ctx : Type} (timecode : Z) (evs : list (DetectionEvent Ctx))
  : list (DetectionEvent Ctx) :=
  filter (λ event, time event = timecode) evs.

(** An event that can close a scene. *)
Definition closes {Ctx : Type} (event : DetectionEvent Ctx) : bool :=
  match kind event with
  | IN => false
  | OUT | CUT => true
  end.

(** Among the events of one timecode, in arrival order: an OUT or CUT event
    comes after an IN event (with [opened] set: an OUT or CUT event comes at
    all). *)
Fixpoint close_after_open {Ctx : Type} (opened : bool) (evs : list (DetectionEvent Ctx))
  : bool :=
  match evs with
  | [] => false
  | event :: evs =>
      if closes event then opened || close_after_open opened evs
      else close_after_open true evs
  end.

(** ** Invariants of the loops of [get_scene_list] *)

(** The scenes appended by the loops, after the keys [ks] have been handled:
    they are chained, their closing boundaries are strictly ascending keys of
    [ks], and the last one closes no later than [last_event_pos]. *)
Definition ordered_inv (ks : list Z) (a : assembly) : Prop :=
  scenes_chained (scene_list a)
  ∧ StronglySorted Z.lt (scene_list a).*2
  ∧ Forall (λ sc : Scene, sc.2 ∈ ks) (scene_list a)
  ∧ (∀ sc, last (scene_list a) = Some sc → sc.2 ≤ last_event_pos a).

(** No scene of zero or negative length: every appended scene is non-empty
    and [last_event_pos] is the start position or a handled key. *)
Definition strict_inv (first : Z) (ks : list Z) (a : assembly) : Prop :=
  Forall scene_nonempty (scene_list a)
  ∧ (last_event_pos a = first ∨ last_event_pos a ∈ ks).

(** The spacing filter in the words of the specification: [kept] is the most
    recently kept cut; a candidate is kept iff it lies at least
    [minimum_spacing] frames after it. *)
Fixpoint keep_after (minimum_spacing kept : Z) (candidates : list Z) : list Z :=
  match candidates with
  | [] => []
  | cut :: candidates =>
      if bool_decide (minimum_spacing ≤ cut - kept)
      then cut :: keep_after minimum_spacing cut candidates
      else keep_after minimum_spacing kept candidates
  end.

Definition greedy_spacing (minimum_spacing : Z) (cuts : list Z) : list Z :=
  match cuts with
  | [] => []
  | first :: candidates => first :: keep_after minimum_spacing first candidates
  end.

(** The processing-required decision in the words of the specification: no
    cache attached, or some registered detector reports missing metrics. *)
Definition processing_required_spec {Ctx Frame StatsManager World : Type}
    (s : SceneManager Ctx Frame StatsManager World) (frame_num : Z) (w : World) : bool :=
  match stats_manager s with
  | None => true
  | Some _ =>
      existsb (λ detector, is_processing_required detector frame_num w) (detectors s)
  end.

(** The argument combinations [detect_scenes] rejects. *)
Definition invalid_arguments {Ctx Frame StatsManager World : Type}
    (s : SceneManager Ctx Frame StatsManager World)
    (duration end_time : option Z) (frame_skip : Z) : Prop :=
  (frame_skip > 0 ∧ stats_manager s ≠ None)
  ∨ (duration ≠ None ∧ end_time ≠ None)
  ∨ (∃ d, duration = Some d ∧ d < 0)
  ∨ (∃ e, end_time = Some e ∧ e < 0).

(** An event turned into a cut: same timecode, same context. *)
Definition cut_of {Ctx : Type} (before after : DetectionEvent Ctx) : Prop :=
  kind after = CUT ∧ time after = time before ∧ context after = context before.

(** ** Concrete managers *)

Module Examples.

(** A manager without detectors or cache whose run went from frame [first] to
    frame [final], holding the ledger [m]. *)
Definition ran (first final : Z) (cuts_only : bool)
    (m : gmap Z (list (DetectionEvent unit))) : SceneManager unit unit unit unit :=
  {| events := m; detectors := []; stats_manager := None;
     start_pos := Some first; last_pos := Some final; base_timecode := Some 0;
     downscale := 1; auto_downscale := true; only_cuts := cuts_only |}.

Definition ev (k : EventType) (t : Z) : DetectionEvent unit := mkDetectionEvent k t ().

(** A manager as constructed, before any run. *)
Definition fresh : SceneManager unit unit unit unit := init None.

(** A run over frames 0..60 that saw three cuts. *)
Definition three_cuts : SceneManager unit unit unit unit :=
  add_events (ran 0 60 true ∅) [ev CUT 10; ev CUT 30; ev CUT 50].

(** A run over frames 0..10 in which one detector reported a fade in and
    another a fade out, both at frame 5. *)
Definition in_out_same_frame : SceneManager unit unit unit unit :=
  add_events (ran 0 10 true ∅) [ev IN 5; ev OUT 5].

(** A run over frames 0..60 in which two detectors reported a cut at frame 40. *)
Definition double_cut : SceneManager unit unit unit unit :=
  add_events (ran 0 60 true ∅) [ev CUT 40; ev CUT 40].

(** Cuts at frames 10, 12, 13 and 40. *)
Definition four_cuts : SceneManager unit unit unit unit :=
  add_events (ran 0 60 true ∅) [ev CUT 10; ev CUT 12; ev CUT 13; ev CUT 40].

(** A run over frames 0..10 whose ledger holds a cut one frame past the last
    processed position. *)
Definition cut_past_end : SceneManager unit unit unit unit :=
  add_events (ran 0 10 true ∅) [ev CUT 11].

(** A fade in at frame 5, a cut at 12 and a fade out at frame 20 over frames
    0..25. *)
Definition fade_in_out : SceneManager unit unit unit unit :=
  add_events (ran 0 25 true ∅) [ev IN 5; ev CUT 12; ev OUT 20].

(** A detector whose metrics are never cached, and one whose metrics always
    are. *)
Definition uncached : SceneDetector unit unit unit :=
  {| process_frame := λ _ _ w, ([], w);
     post_process := λ _ _ w, ([], w);
     is_processing_required := λ _ _, true |}.

Definition cached : SceneDetector unit unit unit :=
  {| process_frame := λ _ _ w, ([], w);
     post_process := λ _ _ w, ([], w);
     is_processing_required := λ _ _, false |}.

(** A manager with a metric cache attached and both detectors registered. *)
Definition two_detectors : SceneManager unit unit unit unit :=
  {| events := ∅; detectors := [uncached; cached]; stats_manager := Some ();
     start_pos := None; last_pos := None; base_timecode := None;
     downscale := 1; auto_downscale := true; only_cuts := true |}.

(** A stream that has no frames. *)
Definition no_video : VideoStream unit unit :=
  {| video_base_timecode := λ _, 0;
     video_frame_number := λ _, 0;
     video_position := λ _, 0;
     video_duration := λ _, None;
     video_frame_size := λ _, (640, 480);
     video_read := λ w, (None, w);
     video_read_nodecode := λ w, (false, w);
     video_grab := λ w, (false, w) |}.

(** A run that stopped on an error after it had recorded its start position:
    the last position is still unset. *)
Definition interrupted : SceneManager unit unit unit unit :=
  {| events := {[ 5 := [ev CUT 5] ]}; detectors := []; stats_manager := None;
     start_pos := Some 0; last_pos := None; base_timecode := Some 0;
     downscale := 1; auto_downscale := true; only_cuts := true |}.

End Examples.

(** ** The rest of [SceneManager] *)

(** A value handed to the [downscale] setter: an [int], or a finite [float]
    given as the fraction [num / den]. *)
Inductive number : Set :=
  | Int (z : Z)
  | Float (num : Z) (den : positive).

(** [value < 1] *)
Definition number_lt_1 (value : number) : bool :=
  match value with
  | Int z => bool_decide (z < 1)
  | Float num den => bool_decide (num < Z.pos den)
  end.

(** [int(value)] truncates towards zero. *)
Definition int_of_number (value : number) : Z :=
  match value with
  | Int z => z
  | Float num den => num `quot` Z.pos den
  end.

Section scene_manager_rest.
Context {Ctx Frame StatsManager World : Type}.
Implicit Types (s : SceneManager Ctx Frame StatsManager World).

Definition set_detectors s (ds : list (SceneDetector Ctx Frame World))
  : SceneManager Ctx Frame StatsManager World :=
  {| events := events s; detectors := ds; stats_manager := stats_manager s;
     start_pos := start_pos s; last_pos := last_pos s;
     base_timecode := base_timecode s; downscale := downscale s;
     auto_downscale := auto_downscale s; only_cuts := only_cuts s |}.

Definition set_stats_manager s (stats : option StatsManager)
  : SceneManager Ctx Frame StatsManager World :=
  {| events := events s; detectors := detectors s; stats_manager := stats;
     start_pos := start_pos s; last_pos := last_pos s;
     base_timecode := base_timecode s; downscale := downscale s;
     auto_downscale := auto_downscale s; only_cuts := only_cuts s |}.

Definition set_downscale s (factor : Z) : SceneManager Ctx Frame StatsManager World :=
  {| events := events s; detectors := detectors s; stats_manager := stats_manager s;
     start_pos := start_pos s; last_pos := last_pos s;
     base_timecode := base_timecode s; downscale := factor;
     auto_downscale := auto_downscale s; only_cuts := only_cuts s |}.

(** [SceneManager.get_event_list]: [sum(lists, [])] adds the lists up from the
    left. *)
Definition get_event_list s : list (DetectionEvent Ctx) :=
  foldl (λ acc evs, acc ++ evs) []
        ((λ timecode, default [] (events s !! timecode)) <$> sorted_keys (events s)).

(** The [downscale] setter; the warnings it logs are left out. *)
Definition downscale_setter (value : number) s
  : result unit * SceneManager Ctx Frame StatsManager World :=
  if number_lt_1 value then (Raise ValueError, s)
  else
    let value := match value with
                 | Int z => z
                 | Float _ _ => int_of_number value
                 end in
    (Ok (), set_downscale s value).

(** Modelled from the spec: what [add_detector] uses of a detector beside the
    methods of [SceneDetector]: [stats_manager_required()], the assignment to
    its [stats_manager] attribute and its [metrics], of the type [Metrics]. *)
Record DetectorSetup (Metrics : Type) : Type := mkDetectorSetup {
  stats_manager_required : World → bool;
  assign_stats_manager : option StatsManager → World → World;
  metrics : World → Metrics;
}.
Arguments stats_manager_required {Metrics} _ _.
Arguments assign_stats_manager {Metrics} _ _ _.
Arguments metrics {Metrics} _ _.

(** [SceneManager.add_detector]; [new_stats_manager] is the constructor
    [StatsManager()], [register_metrics] the method of that name, with [true]
    for a raised [FrameMetricRegistered], which is caught and dropped. *)
Definition add_detector {Metrics : Type}
    (new_stats_manager : World → StatsManager * World)
    (register_metrics : StatsManager → Metrics → World → bool * World)
    (detector : SceneDetector Ctx Frame World) (setup : DetectorSetup Metrics)
    (st : SceneManager Ctx Frame StatsManager World * World)
  : SceneManager Ctx Frame StatsManager World * World :=
  let '(s, w) := st in
  let '(s, w) :=
    if negb (is_not_none (stats_manager s)) && stats_manager_required setup w
    then let '(stats, w) := new_stats_manager w in
         (set_stats_manager s (Some stats), w)
    else (s, w) in
  let w := assign_stats_manager setup (stats_manager s) w in
  let w := match stats_manager s with
           | Some stats => (register_metrics stats (metrics setup w) w).2
           | None => w
           end in
  (set_detectors s (detectors s ++ [detector]), w).

(** [SceneManager.get_num_detectors] *)
Definition get_num_detectors s : nat := length (detectors s).

(** [SceneManager.clear_detectors] *)
Definition clear_detectors s : SceneManager Ctx Frame StatsManager World :=
  set_detectors s [].

(** ** Invariants of a manager *)

(** Every key of the ledger holds a non-empty list of events that carry the
    key as their time. *)
Definition ledger_wf (m : gmap Z (list (DetectionEvent Ctx))) : Prop :=
  map_Forall (λ t evs, evs ≠ [] ∧ Forall (λ e, time e = t) evs) m.

(** The ledger is well formed, the cuts-only flag is set only when every event
    of the ledger is a CUT, and the downscale factor is at least 1. *)
Definition manager_wf s : Prop :=
  ledger_wf (events s)
  ∧ (only_cuts s = true →
     map_Forall (λ _ evs, Forall (λ e, kind e = CUT) evs) (events s))
  ∧ 1 ≤ downscale s.

(** Scenes begin at the start position or at a handled key, and so does
    [last_event_pos]. *)
Definition starts_inv (first : Z) (ks : list Z) (a : assembly) : Prop :=
  Forall (λ sc : Z * Z, sc.1 = first ∨ sc.1 ∈ ks) (scene_list a)
  ∧ (last_event_pos a = first ∨ last_event_pos a ∈ ks).

(** What a detection run leaves of the manager [s] in [s']: the detectors, the
    cache and the downscale settings as they were, a recorded start position
    kept, the events of every timecode kept in front of the new ones, the
    cuts-only flag never set again. *)
Definition extends s s' : Prop :=
  detectors s' = detectors s
  ∧ stats_manager s' = stats_manager s
  ∧ downscale s' = downscale s
  ∧ auto_downscale s' = auto_downscale s
  ∧ (∀ p, start_pos s = Some p → start_pos s' = Some p)
  ∧ (∀ t, default [] (events s !! t) `prefix_of` default [] (events s' !! t))
  ∧ (only_cuts s' = true → only_cuts s = true).

End scene_manager_rest.

Arguments stats_manager_required {StatsManager World Metrics} _ _.
Arguments assign_stats_manager {StatsManager World Metrics} _ _ _.
Arguments metrics {StatsManager World Metrics} _ _.

(** ** Saving images: the frames [save_images] takes from each scene *)

(** What the helpers outside [SceneManager] raise: an exception of the manager
    or one of these. *)
Inductive error : Type :=
  | Builtin (e : exception)
  | IndexError
  | KeyError
  | UnboundLocalError
  | BadParameter (message param_hint : list ascii).

Inductive outcome (A : Type) : Type :=
  | Returns (a : A)
  | Raises (e : error).
Arguments Returns {A} a.
Arguments Raises {A} e.

(** The elements of a list through a function that may raise, from left to
    right, stopping at the first that does; [collect_indexed] hands the
    function the position too, as [enumerate] does. *)
Fixpoint collect_indexed {A B : Type} (f : nat → A → outcome B) (j : nat) (l : list A)
  : outcome (list B) :=
  match l with
  | [] => Returns []
  | x :: l =>
      match f j x with
      | Raises e => Raises e
      | Returns y =>
          match collect_indexed f (S j) l with
          | Raises e => Raises e
          | Returns ys => Returns (y :: ys)
          end
      end
  end.

Definition collect {A B : Type} (f : A → outcome B) (l : list A) : outcome (list B) :=
  collect_indexed (λ _, f) 0 l.

(** [range(start.get_frames(), end.get_frames())] *)
Definition frames_of (scene : Z * Z) : list Z := seqZ scene.1 (scene.2 - scene.1).

(** The range of a scene, padded with its last frame to [num_images] frames;
    [r[-1]] and [r[0]] raise on an empty range. *)
Definition pad_frames (num_images : Z) (r : list Z) : outcome (list Z) :=
  match last r, head r with
  | Some final, Some first =>
      if bool_decide (1 + final - first >= num_images) then Returns r
      else Returns (r ++ replicate (Z.to_nat (num_images - Z.of_nat (length r))) final)
  | _, _ => Raises IndexError
  end.

(** [numpy.array_split(ary, sections)] for a number of sections: the first
    [len(ary) % sections] parts hold [len(ary) // sections + 1] elements, the
    others [len(ary) // sections]. *)
Definition array_split {A : Type} (ary : list A) (sections : nat) : list (list A) :=
  let each := (length ary `div` sections)%nat in
  let extras := (length ary `mod` sections)%nat in
  reshape (replicate extras (S each) ++ replicate (sections - extras) each) ary.

(** The frame taken from part [j] of a scene: the middle one, for the first
    part the first one moved in by the margin, for the last part the last one
    moved in by the margin. *)
Definition pick_frame (num_images frame_margin : Z) (j : nat) (a : list Z) : outcome Z :=
  if bool_decide (0 < Z.of_nat j < num_images - 1) || bool_decide (num_images = 1) then
    match a !! (length a `div` 2)%nat with
    | Some f => Returns f
    | None => Raises IndexError
    end
  else if bool_decide (j = 0%nat) then
    match head a, last a with
    | Some first, Some final => Returns ((first + frame_margin) `min` final)
    | _, _ => Raises IndexError
    end
  else
    match last a, head a with
    | Some final, Some first => Returns ((final - frame_margin) `max` first)
    | _, _ => Raises IndexError
    end.

(** [save_images] up to its [timecode_list]: the early return for no scenes,
    the check of the arguments and the frame numbers of the images of every
    scene.  Left out are what lies between the check and the list (the
    look-up of the encoder parameters of [image_extension], taken to be one of
    the known extensions, [video.reset()], the progress bar and the number
    formats) and all that follows the list: seeking, the file names and the
    writing of the images. *)
Definition save_images_timecodes (scene_list : list (Z * Z))
    (num_images frame_margin : Z) : outcome (list (list Z)) :=
  match scene_list with
  | [] => Returns []
  | _ :: _ =>
      if bool_decide (num_images ≤ 0) || bool_decide (frame_margin < 0)
      then Raises (Builtin ValueError)
      else
        match collect (λ scene, pad_frames num_images (frames_of scene)) scene_list with
        | Raises e => Raises e
        | Returns ranges =>
            collect (λ r, collect_indexed (pick_frame num_images frame_margin) 0
                            (array_split r (Z.to_nat num_images)))
                    ranges
        end
  end.

(** ** Writing scene lists: [write_scene_list], [write_scene_list_html] *)

(** A Python [str], as the list of its characters. *)
Abbreviation str := (list ascii) (only parsing).

Definition lit (s : string) : str := String.list_ascii_of_string s.

(** A cell handed to the CSV writer or put in an HTML table row.  The
    formatting of a timecode belongs to [FrameTimecode], so a cell keeps the
    timecode and how it is shown: [TimecodeObject] is a [FrameTimecode] passed
    as it is, [Timecode] its [get_timecode()], [FrameNumber] its
    ['%d' % get_frames()], [Seconds] its ['%.3f' % get_seconds()]; [Index] is
    ['%d'] of a number, [Image] an image of the given file, width and
    height. *)
Inductive cell : Type :=
  | Text (text : str)
  | TimecodeObject (t : Z)
  | Timecode (t : Z)
  | FrameNumber (t : Z)
  | Seconds (t : Z)
  | Index (n : nat)
  | Image (file : str) (width height : option Z).

(** The header row of both writers. *)
Definition header_row : list cell :=
  Text <$> [lit "Scene Number"; lit "Start Frame"; lit "Start Timecode";
            lit "Start Time (seconds)"; lit "End Frame"; lit "End Timecode";
            lit "End Time (seconds)"; lit "Length (frames)";
            lit "Length (timecode)"; lit "Length (seconds)"].

(** The row of scene [i], with [duration = end - start]. *)
Definition scene_row (i : nat) (scene : Z * Z) : list cell :=
  let '(start, end_) := scene in
  let duration := end_ - start in
  [Index (i + 1); FrameNumber start; Timecode start; Seconds start;
   FrameNumber end_; Timecode end_; Seconds end_;
   FrameNumber duration; Timecode duration; Seconds duration].

(** [x if x else ...]: a cut list that is given and not empty. *)
Definition truthy_list {A : Type} (l : option (list A)) : bool :=
  match l with
  | Some (_ :: _) => true
  | _ => false
  end.

(** [write_scene_list]: the rows written, in order.  In the first row the
    conditional expression takes the whole sum [["Timecode List:"] + cut_list]
    as its first branch. *)
Definition write_scene_list (scene_list : list (Z * Z)) (include_cut_list : bool)
    (cut_list : option (list Z)) : list (list cell) :=
  (if include_cut_list then
     [if truthy_list cut_list
      then Text (lit "Timecode List:") :: (TimecodeObject <$> default [] cut_list)
      else (λ scene : Z * Z, Timecode scene.1) <$> drop 1 scene_list]
   else [])
  ++ [header_row]
  ++ imap scene_row scene_list.

(** The page [write_scene_list_html] saves: the style sheet, the one row of
    the timecode table and the rows of the scene table under the header. *)
Record HTMLPage : Type := mkHTMLPage {
  page_css : str;
  timecode_table : list cell;
  scene_table_header : list cell;
  scene_table : list (list cell);
}.

(** The row of scene [i] with its images; [image_filenames[i]] raises
    [KeyError] for a missing key. *)
Definition html_scene_row (image_filenames : option (gmap nat (list str)))
    (image_width image_height : option Z) (i : nat) (scene : Z * Z)
  : outcome (list cell) :=
  match image_filenames with
  | Some images =>
      if bool_decide (images = ∅) then Returns (scene_row i scene)
      else
        match images !! i with
        | Some files =>
            Returns (scene_row i scene
                     ++ ((λ image, Image image image_width image_height) <$> files))
        | None => Raises KeyError
        end
  | None => Returns (scene_row i scene)
  end.

(** [write_scene_list_html]: the page saved to [output_html_filename], or what
    is raised before anything is saved; [default_css] is the style sheet
    spelled out in the source.  [scene_table] is bound by the first turn of
    the loop only. *)
Definition write_scene_list_html (default_css : str) (scene_list : list (Z * Z))
    (cut_list : option (list Z)) (css : option str)
    (image_filenames : option (gmap nat (list str)))
    (image_width image_height : option Z) : outcome HTMLPage :=
  let css := match css with
             | Some (c :: css) => c :: css
             | _ => default_css
             end in
  let timecode_row :=
    Text (lit "Timecode List:")
    :: (if truthy_list cut_list then TimecodeObject <$> default [] cut_list
        else (λ scene : Z * Z, Timecode scene.1) <$> drop 1 scene_list) in
  match collect_indexed (html_scene_row image_filenames image_width image_height)
                        0 scene_list with
  | Raises e => Raises e
  | Returns [] => Raises UnboundLocalError
  | Returns (row :: rows) =>
      Returns (mkHTMLPage css timecode_row header_row (row :: rows))
  end.

(** ** The command line: [_split_video] and its check of the tools *)

(** [sep.join(strs)] *)
Fixpoint join (sep : str) (strs : list str) : str :=
  match strs with
  | [] => []
  | [s] => s
  | s :: strs => s ++ sep ++ join sep strs
  end.

(** [s.rfind(c)] for a character: the highest index of [c] in [s], or -1. *)
Fixpoint rfind (c : ascii) (s : str) : Z :=
  match s with
  | [] => -1
  | x :: s =>
      let found := rfind c s in
      if bool_decide (0 ≤ found) then found + 1
      else if bool_decide (x = c) then 0 else -1
  end.

(** [_check_split_video_requirements], given what [is_mkvmerge_available()]
    and [is_ffmpeg_available()] answer. *)
Definition _check_split_video_requirements (mkvmerge_available ffmpeg_available : bool)
    (use_mkvmerge : bool) : outcome unit :=
  if (use_mkvmerge && negb mkvmerge_available) || negb ffmpeg_available then
    let error_strs :=
      [(if use_mkvmerge then lit "mkvmerge" else lit "ffmpeg")
       ++ lit " is required for split-video"
       ++ (if use_mkvmerge then lit " -m/--mkvmerge" else lit "") ++ lit "."] in
    let error_strs :=
      error_strs ++ [lit "Install one of the above tools to enable the split-video command."] in
    let error_strs :=
      if negb use_mkvmerge && mkvmerge_available then
        error_strs ++ [lit "You can also specify `-m/--mkvmerge` to use mkvmerge for splitting."]
      else if use_mkvmerge && ffmpeg_available then
        error_strs ++ [lit "You can also specify `-c/--copy` to use ffmpeg stream copying."]
      else error_strs in
    Raises (BadParameter (join [ascii_of_nat 10] error_strs) (lit "split-video"))
  else Returns ().

(** The number of characters after the last dot of a file name, 0 without a
    dot: [extension_length] of [_split_video]. *)
Definition extension_length (output_path_template : str) : Z :=
  let dot_pos := rfind "."%char output_path_template in
  if bool_decide (dot_pos < 0) then 0
  else Z.of_nat (length output_path_template) - (dot_pos + 1).

(** The file name template [_split_video] hands to [get_and_create_path]. *)
Definition split_file_name (split_mkvmerge : bool) (split_name_format : str) : str :=
  if split_mkvmerge && negb (bool_decide (lit ".mkv" `suffix_of` split_name_format))
  then split_name_format ++ lit ".mkv"
  else if negb (bool_decide (2 ≤ extension_length split_name_format ≤ 4))
  then split_name_format ++ lit ".mp4"
  else split_name_format.

(** The options of the command-line context that [_split_video] reads. *)
Record SplitOptions : Type := mkSplitOptions {
  split_video : bool;
  split_name_format : str;
  split_mkvmerge : bool;
  split_directory : option str;
  output_directory : option str;
  quiet_mode : bool;
  split_quiet : bool;
  split_args : option str;
  video_path : str;
}.

(** What [_split_video] does to the outside, in order. *)
Inductive action : Type :=
  | GetAndCreatePath (file_path : str) (output_directory : option str)
  | SplitVideoMkvmerge (input : str) (scene_list : list (Z * Z))
      (output_file_template : str) (show_output : bool)
  | SplitVideoFfmpeg (input : str) (scene_list : list (Z * Z))
      (output_file_template : str) (arg_override : option str)
      (show_progress show_output : bool).

(** [_split_video]; [path_in] is what [get_and_create_path] returns; the
    message logged at the end is left out. *)
Definition _split_video (mkvmerge_available ffmpeg_available : bool)
    (path_in : str → option str → str)
    (context : SplitOptions) (scene_list : list (Z * Z))
  : list action * outcome unit :=
  if negb (split_video context) then ([], Returns ())
  else
    let output_path_template :=
      split_file_name (split_mkvmerge context) (split_name_format context) in
    let directory := match split_directory context with
                     | Some d => Some d
                     | None => output_directory context
                     end in
    let created := GetAndCreatePath output_path_template directory in
    let output_path_template := path_in output_path_template directory in
    match _check_split_video_requirements mkvmerge_available ffmpeg_available
                                          (split_mkvmerge context) with
    | Raises e => ([created], Raises e)
    | Returns _ =>
        let split :=
          if split_mkvmerge context then
            SplitVideoMkvmerge (video_path context) scene_list output_path_template
              (negb (quiet_mode context || split_quiet context))
          else
            SplitVideoFfmpeg (video_path context) scene_list output_path_template
              (split_args context) (negb (quiet_mode context))
              (negb (quiet_mode context || split_quiet context)) in
        ([created; split], Returns ())
    end.

(** ** A concrete run *)

Module Run.

(** A stream of five frames; the world is the number of frames read. *)
Definition five_frames : VideoStream unit Z :=
  {| video_base_timecode := λ _, 0;
     video_frame_number := λ w, w;
     video_position := λ w, 0 `max` (w - 1);
     video_duration := λ _, Some 5;
     video_frame_size := λ _, (640, 480);
     video_read := λ w, if bool_decide (w < 5) then (Some (), w + 1) else (None, w);
     video_read_nodecode := λ w, if bool_decide (w < 5) then (true, w + 1) else (false, w);
     video_grab := λ w, if bool_decide (w < 5) then (true, w + 1) else (false, w) |}.

(** A detector that reports a cut at frame 2. *)
Definition cut_at_2 : SceneDetector unit unit Z :=
  {| process_frame := λ t _ w,
       (if bool_decide (t = 2) then [mkDetectionEvent CUT 2 ()] else [], w);
     post_process := λ _ _ w, ([], w);
     is_processing_required := λ _ _, true |}.

(** A manager as constructed, with that detector registered. *)
Definition manager : SceneManager unit unit unit Z :=
  {| events := ∅; detectors := [cut_at_2]; stats_manager := None;
     start_pos := None; last_pos := None; base_timecode := None;
     downscale := 1; auto_downscale := true; only_cuts := true |}.

(** The manager after the run over the five frames. *)
Definition after_run : SceneManager unit unit unit Z :=
  {| events := {[ 2 := [mkDetectionEvent CUT 2 ()] ]}; detectors := [cut_at_2];
     stats_manager := None;
     start_pos := Some 0; last_pos := Some 4; base_timecode := Some 0;
     downscale := 1; auto_downscale := true; only_cuts := true |}.

(** A detector that needs a cache. *)
Definition needs_cache : DetectorSetup (StatsManager := unit) (World := Z) unit :=
  {| stats_manager_required := λ _, true;
     assign_stats_manager := λ _ w, w;
     metrics := λ _, () |}.

(** Options that ask for splitting with mkvmerge into files named after the
    format [$VIDEO_NAME-Scene-$SCENE_NUMBER]. *)
Definition split_options : SplitOptions :=
  {| split_video := true;
     split_name_format := lit "$VIDEO_NAME-Scene-$SCENE_NUMBER";
     split_mkvmerge := true;
     split_directory := None;
     output_directory := None;
     quiet_mode := false;
     split_quiet := false;
     split_args := None;
     video_path := lit "video.mp4" |}.

End Run.

(** * Verification *)

Section ledger_facts.
Context {Ctx Frame StatsManager World : Type}.
Implicit Types (s : SceneManager Ctx Frame StatsManager World).
Implicit Types (m : gmap Z (list (DetectionEvent Ctx))).
Implicit Types (evs : list (DetectionEvent Ctx)) (a : assembly).

(** ** The sorted keys of a ledger *)

Lemma sorted_keys_perm m : sorted_keys m ≡ₚ (map_to_list m).*1.
Proof. apply merge_sort_Permutation. Qed.

Lemma elem_of_sorted_keys m t : t ∈ sorted_keys m ↔ is_Some (m !! t).
Proof.
  rewrite sorted_keys_perm, list_elem_of_fmap. split.
  - intros [[k v] [-> Hkv]]. apply elem_of_map_to_list in Hkv. by exists v.
  - intros [v Hv]. exists (t, v). split; [done|]. by apply elem_of_map_to_list.
Qed.

Lemma sorted_keys_NoDup m : NoDup (sorted_keys m).
Proof. rewrite sorted_keys_perm. apply NoDup_fst_map_to_list. Qed.

Lemma StronglySorted_le_lt (l : list Z) :
  StronglySorted Z.le l → NoDup l → StronglySorted Z.lt l.
Proof.
  induction 1 as [|x l Hl IH Hx]; intros Hnd; [constructor|].
  apply NoDup_cons in Hnd as [Hnotin Hnd].
  constructor; [by apply IH|].
  rewrite Forall_forall in Hx |- *. intros y Hy.
  specialize (Hx y Hy). assert (x ≠ y) by (intros ->; done). lia.
Qed.

Lemma sorted_keys_sorted m : StronglySorted Z.lt (sorted_keys m).
Proof.
  apply StronglySorted_le_lt; [|apply sorted_keys_NoDup].
  unfold sorted_keys. apply StronglySorted_merge_sort; apply _.
Qed.

Lemma sorted_keys_empty m : sorted_keys m = [] ↔ m = ∅.
Proof.
  split.
  - intros Hnil. apply map_empty. intros t.
    apply eq_None_not_Some. rewrite <- elem_of_sorted_keys, Hnil.
    apply not_elem_of_nil.
  - intros ->. unfold sorted_keys. by rewrite map_to_list_empty.
Qed.

(** ** The loops of [get_scene_list] *)

Lemma close_after_open_mono evs :
  close_after_open false evs = true → close_after_open true evs = true.
Proof.
  induction evs as [|e evs IH]; simpl; [done|].
  destruct (closes e); simpl; auto.
Qed.

Lemma close_after_open_any (opened : bool) evs :
  close_after_open opened evs = true → close_after_open true evs = true.
Proof. destruct opened; [done|apply close_after_open_mono]. Qed.

(** What the events of one timecode do to the locals: the scene list is left
    as it is, or it grows by exactly one scene closing at [t]. *)
Lemma on_events_spec t evs a added :
  let r := foldl (on_event t) (a, added) evs in
  (added = true → r.2 = true) ∧
  ((scene_list r.1 = scene_list a ∧
    (last_event_pos r.1 = last_event_pos a ∨ last_event_pos r.1 = t))
   ∨ (added = false ∧ last_event_pos r.1 = t ∧
      ∃ p, scene_list r.1 = scene_list a ++ [(p, t)] ∧
           ((p = last_event_pos a ∧ close_after_open true evs = true)
            ∨ (p = t ∧ close_after_open false evs = true)))).
Proof.
  revert a added. induction evs as [|e evs IH]; intros a added; simpl.
  { split; [done|]. left. auto. }
  unfold on_event at 2, closes.
  destruct (kind e) eqn:Hk; simpl.
  - (* IN *)
    destruct (IH (mkAssembly true t (scene_list a)) added) as [Hadd Hsp].
    split; [done|]. simpl in Hsp.
    destruct Hsp as [[Hsl Hlep]|(-> & Hlep & p & Hsl & Hp)].
    + left. split; [done|]. right. by destruct Hlep.
    + right. split; [done|]. split; [done|]. exists p. split; [done|].
      right. destruct Hp as [[-> Hc]|[-> Hc]]; auto using close_after_open_mono.
  - (* OUT *)
    destruct (in_scene a); [destruct added|].
    + destruct (IH (mkAssembly false t (scene_list a)) true) as [Hadd Hsp].
      split; [done|]. simpl in Hsp.
      destruct Hsp as [[Hsl Hlep]|(? & _)]; [|done].
      left. split; [done|]. right. by destruct Hlep.
    + destruct (IH (mkAssembly false t (scene_list a ++ [(last_event_pos a, t)])) true)
        as [Hadd Hsp].
      split; [done|]. simpl in Hsp.
      destruct Hsp as [[Hsl Hlep]|(? & _)]; [|done].
      right. split; [done|]. split; [by destruct Hlep|].
      exists (last_event_pos a). split; [done|]. left. auto.
    + destruct (IH a added) as [Hadd Hsp]. split; [done|].
      destruct Hsp as [?|(-> & Hlep & p & Hsl & Hp)]; [by left|].
      right. split; [done|]. split; [done|]. exists p. split; [done|].
      destruct Hp as [[-> Hc]|[-> Hc]]; [left|right]; split; try done.
  - (* CUT *)
    destruct (in_scene a); [destruct added|].
    + destruct (IH (mkAssembly true t (scene_list a)) true) as [Hadd Hsp].
      split; [done|]. simpl in Hsp.
      destruct Hsp as [[Hsl Hlep]|(? & _)]; [|done].
      left. split; [done|]. right. by destruct Hlep.
    + destruct (IH (mkAssembly true t (scene_list a ++ [(last_event_pos a, t)])) true)
        as [Hadd Hsp].
      split; [done|]. simpl in Hsp.
      destruct Hsp as [[Hsl Hlep]|(? & _)]; [|done].
      right. split; [done|]. split; [by destruct Hlep|].
      exists (last_event_pos a). split; [done|]. left. auto.
    + destruct (IH a added) as [Hadd Hsp]. split; [done|].
      destruct Hsp as [?|(-> & Hlep & p & Hsl & Hp)]; [by left|].
      right. split; [done|]. split; [done|]. exists p. split; [done|].
      destruct Hp as [[-> Hc]|[-> Hc]]; [left|right]; split; try done.
Qed.

Lemma on_timecode_spec m a t :
  let a' := on_timecode m a t in
  (scene_list a' = scene_list a ∧
   (last_event_pos a' = last_event_pos a ∨ last_event_pos a' = t))
  ∨ (last_event_pos a' = t ∧
     ∃ p, scene_list a' = scene_list a ++ [(p, t)] ∧
          ((p = last_event_pos a ∧ close_after_open true (default [] (m !! t)) = true)
           ∨ (p = t ∧ close_after_open false (default [] (m !! t)) = true))).
Proof.
  unfold on_timecode.
  destruct (on_events_spec t (default [] (m !! t)) a false) as [_ [H|(_ & H)]]; auto.
Qed.

(** Induction over the outer loop: the keys come strictly ascending, and the
    property may speak of the keys handled so far. *)
Lemma assemble_ind (P : list Z → assembly → Prop) m a0 :
  P [] a0 →
  (∀ done_keys t a,
      Forall (λ k, k < t) done_keys → is_Some (m !! t) →
      P done_keys a → P (done_keys ++ [t]) (on_timecode m a t)) →
  P (sorted_keys m) (foldl (on_timecode m) a0 (sorted_keys m)).
Proof.
  intros Hinit Hstep.
  assert (Hall : ∀ k, k ∈ sorted_keys m → is_Some (m !! k))
    by (intros k; apply elem_of_sorted_keys).
  pose proof (sorted_keys_sorted m) as Hsorted.
  induction (sorted_keys m) as [|t ks IH] using rev_ind; [done|].
  rewrite foldl_app. simpl.
  apply StronglySorted_app in Hsorted as (Hlt & Hks & _).
  apply Hstep.
  - apply Forall_forall. intros k Hk. apply Hlt; [done|]. apply list_elem_of_singleton. done.
  - apply Hall. apply elem_of_app. right. by apply list_elem_of_singleton.
  - apply IH; [|done]. intros k Hk. apply Hall, elem_of_app. by left.
Qed.

(** ** Order of the assembled scenes *)

Lemma scenes_chained_snoc (scenes : list Scene) (sc : Scene) :
  scenes_chained scenes →
  (∀ prev, last scenes = Some prev → prev.2 ≤ sc.1) →
  scenes_chained (scenes ++ [sc]).
Proof.
  intros Hch Hlast i x y Hx Hy.
  destruct (decide (S i < length scenes)%nat) as [Hlt|Hge].
  - rewrite lookup_app_l in Hx by lia. rewrite lookup_app_l in Hy by lia. eauto.
  - assert (Hi : (i < length (scenes ++ [sc]))%nat) by eauto using lookup_lt_Some.
    assert (HSi : (S i < length (scenes ++ [sc]))%nat) by eauto using lookup_lt_Some.
    rewrite length_app in Hi, HSi. simpl in Hi, HSi.
    assert (S i = length scenes) as HSi' by lia.
    rewrite lookup_app_l in Hx by lia.
    rewrite lookup_app_r in Hy by lia.
    replace (S i - length scenes)%nat with 0%nat in Hy by lia.
    simpl in Hy. injection Hy as <-.
    apply Hlast. rewrite last_lookup. by replace (pred (length scenes)) with i by lia.
Qed.

Lemma ordered_inv_step m ks t a :
  Forall (λ k, k < t) ks → ordered_inv ks a →
  ordered_inv (ks ++ [t]) (on_timecode m a t).
Proof.
  intros Hlt (Hch & Hss & Hin & Hlast).
  assert (Hbelow : ∀ sc : Scene, sc ∈ scene_list a → sc.2 < t).
  { intros sc Hsc. rewrite Forall_forall in Hin. rewrite Forall_forall in Hlt.
    by apply Hlt, Hin. }
  assert (Hlastin : ∀ sc, last (scene_list a) = Some sc → sc ∈ scene_list a).
  { intros sc Hsc. rewrite last_lookup in Hsc. by eapply list_elem_of_lookup_2. }
  destruct (on_timecode_spec m a t) as [[Hsl Hlep]|(Hlep & p & Hsl & Hp)];
    unfold ordered_inv; rewrite Hsl.
  - split; [done|]. split; [done|]. split.
    + eapply Forall_impl; [exact Hin|]. intros sc Hsc. apply elem_of_app. by left.
    + intros sc Hsc. destruct Hlep as [->| ->]; [by apply Hlast|].
      apply Hlastin, Hbelow in Hsc. lia.
  - split; [|split; [|split]].
    + apply scenes_chained_snoc; [done|]. intros prev Hprev. simpl.
      destruct Hp as [[-> _]|[-> _]]; [by apply Hlast|].
      apply Hlastin, Hbelow in Hprev. lia.
    + rewrite fmap_app. simpl. apply StronglySorted_app.
      split; [|split; [done|repeat constructor]].
      intros x1 x2 Hx1 ->%list_elem_of_singleton.
      apply list_elem_of_fmap in Hx1 as (sc & -> & Hsc). by apply Hbelow.
    + apply Forall_app. split.
      * eapply Forall_impl; [exact Hin|]. intros sc Hsc. apply elem_of_app. by left.
      * constructor; [|constructor]. simpl. apply elem_of_app. right.
        by apply list_elem_of_singleton.
    + intros sc. rewrite last_snoc. intros [= <-]. simpl. lia.
Qed.

Lemma assemble_ordered s start :
  ordered_inv (sorted_keys (events s)) (assemble s start).
Proof.
  unfold assemble. apply (assemble_ind ordered_inv).
  - repeat split; simpl; try constructor.
    + intros i x y Hx. done.
    + done.
  - intros ks t a Hlt _ Hinv. by apply ordered_inv_step.
Qed.

Lemma strict_inv_step m first ks t a evs :
  Forall (λ k, k < t) ks → m !! t = Some evs → first ≤ t →
  close_after_open (bool_decide (t = first)) evs = false →
  strict_inv first ks a → strict_inv first (ks ++ [t]) (on_timecode m a t).
Proof.
  intros Hlt Hevs Hfirst Hcao (Hne & Hlep0).
  assert (Hhere : t ∈ ks ++ [t]).
  { apply elem_of_app. right. by apply list_elem_of_singleton. }
  destruct (on_timecode_spec m a t) as [[Hsl Hlep]|(Hlep & p & Hsl & Hp)];
    unfold strict_inv; rewrite Hsl.
  - split; [done|]. destruct Hlep as [->| ->]; [|by right].
    destruct Hlep0 as [?|?]; [by left|]. right. apply elem_of_app. by left.
  - rewrite Hevs in Hp. simpl in Hp. split; [|right; by rewrite Hlep].
    apply Forall_app. split; [done|]. constructor; [|constructor].
    unfold scene_nonempty. simpl.
    destruct Hp as [[-> Hc]|[-> Hc]].
    + case_bool_decide as Hdec; [congruence|].
      destruct Hlep0 as [->|Hin]; [lia|].
      rewrite Forall_forall in Hlt. by apply Hlt.
    + apply (close_after_open_any false) in Hc as Hc'.
      destruct (bool_decide (t = first)); congruence.
Qed.

Lemma assemble_strict s first final :
  (∀ t evs, events s !! t = Some evs →
            first ≤ t ≤ final
            ∧ close_after_open (bool_decide (t = first)) evs = false) →
  Forall scene_nonempty (scene_list (assemble s first))
  ∧ (events s ≠ ∅ → last_event_pos (assemble s first) ≤ final).
Proof.
  intros Hwf.
  assert (strict_inv first (sorted_keys (events s)) (assemble s first)) as [Hne Hlep].
  { unfold assemble. apply (assemble_ind (strict_inv first)).
    - split; [constructor|by left].
    - intros ks t a Hlt [evs Hevs] Hinv.
      destruct (Hwf t evs Hevs) as [[? ?] ?].
      by eapply strict_inv_step. }
  split; [done|]. intros Hnonempty.
  destruct Hlep as [->|Hin].
  - destruct (sorted_keys (events s)) as [|t ks] eqn:Hks.
    { by apply sorted_keys_empty in Hks. }
    assert (is_Some (events s !! t)) as [evs Hevs].
    { apply elem_of_sorted_keys. rewrite Hks. by left. }
    destruct (Hwf t evs Hevs) as [[? ?] _]. lia.
  - apply elem_of_sorted_keys in Hin as [evs Hevs].
    destruct (Hwf _ _ Hevs) as [[? ?] _]. lia.
Qed.

(** What [get_scene_list] returns, in terms of the loops. *)
Lemma get_scene_list_Ok always_include_end s scenes :
  get_scene_list always_include_end s = Ok scenes →
  (events s = ∅ ∧ scenes = [])
  ∨ (events s ≠ ∅ ∧ ∃ start,
       start_pos s = Some start ∧
       ((scenes = scene_list (assemble s start)
         ∧ in_scene (assemble s start) && always_include_end = false)
        ∨ (∃ final, last_pos s = Some final
             ∧ in_scene (assemble s start) && always_include_end = true
             ∧ scenes = scene_list (assemble s start)
                          ++ [(last_event_pos (assemble s start), final + 1)]))).
Proof.
  unfold get_scene_list. case_bool_decide as Hempty.
  { intros [= <-]. by left. }
  destruct (start_pos s) as [start|]; [|done].
  intros Hres. right. split; [done|]. exists start. split; [done|].
  destruct (in_scene (assemble s start) && always_include_end) eqn:Hin.
  - destruct (last_pos s) as [final|]; [|done]. injection Hres as <-.
    right. by exists final.
  - injection Hres as <-. by left.
Qed.

(** ** [add_events] *)

Lemma add_event_events s e :
  events (add_event s e)
  = <[time e := default [] (events s !! time e) ++ [e]]> (events s).
Proof.
  unfold add_event.
  destruct (events s !! time e) as [old|] eqn:Hold;
    case_bool_decide; simpl; rewrite ?Hold, ?lookup_insert_eq, ?insert_insert_eq; done.
Qed.

Lemma add_event_only_cuts s e :
  only_cuts (add_event s e) = only_cuts s && bool_decide (kind e = CUT).
Proof.
  unfold add_event. destruct (kind e); simpl; by rewrite ?andb_true_r, ?andb_false_r.
Qed.

Lemma add_event_fields s e :
  detectors (add_event s e) = detectors s
  ∧ stats_manager (add_event s e) = stats_manager s
  ∧ start_pos (add_event s e) = start_pos s
  ∧ last_pos (add_event s e) = last_pos s
  ∧ base_timecode (add_event s e) = base_timecode s
  ∧ downscale (add_event s e) = downscale s
  ∧ auto_downscale (add_event s e) = auto_downscale s.
Proof. unfold add_event. by case_bool_decide. Qed.

Lemma add_events_fields s evs :
  detectors (add_events s evs) = detectors s
  ∧ stats_manager (add_events s evs) = stats_manager s
  ∧ start_pos (add_events s evs) = start_pos s
  ∧ last_pos (add_events s evs) = last_pos s
  ∧ base_timecode (add_events s evs) = base_timecode s
  ∧ downscale (add_events s evs) = downscale s
  ∧ auto_downscale (add_events s evs) = auto_downscale s.
Proof.
  revert s. induction evs as [|e evs IH]; intros s; simpl; [done|].
  destruct (IH (add_event s e)) as (-> & -> & -> & -> & -> & -> & ->).
  apply add_event_fields.
Qed.

Lemma add_events_app s evs1 evs2 :
  add_events s (evs1 ++ evs2) = add_events (add_events s evs1) evs2.
Proof. apply foldl_app. Qed.

(** The ledger keeps, per timecode, the events in arrival order. *)
Lemma add_events_lookup s evs t :
  events (add_events s evs) !! t
  = match arrivals t evs with
    | [] => events s !! t
    | _ :: _ => Some (default [] (events s !! t) ++ arrivals t evs)
    end.
Proof.
  revert s. induction evs as [|e evs IH]; intros s; [done|].
  change (add_events s (e :: evs)) with (add_events (add_event s e) evs).
  rewrite IH, add_event_events. unfold arrivals. rewrite filter_cons.
  destruct (decide (time e = t)) as [<-|Hne].
  - rewrite lookup_insert_eq. simpl.
    destruct (filter _ evs); [done|].
    by rewrite <- app_assoc.
  - by rewrite lookup_insert_ne.
Qed.

Lemma add_events_only_cuts s evs :
  only_cuts (add_events s evs)
  = only_cuts s && forallb (λ e, bool_decide (kind e = CUT)) evs.
Proof.
  revert s. induction evs as [|e evs IH]; intros s; simpl; [by rewrite andb_true_r|].
  change (foldl add_event (add_event s e) evs) with (add_events (add_event s e) evs).
  by rewrite IH, add_event_only_cuts, andb_assoc.
Qed.

Lemma add_events_nonempty s evs : evs ≠ [] → events (add_events s evs) ≠ ∅.
Proof.
  destruct evs as [|e evs]; [done|]. intros _ Hempty.
  pose proof (add_events_lookup s (e :: evs) (time e)) as Hl.
  rewrite Hempty, lookup_empty in Hl. unfold arrivals in Hl.
  rewrite filter_cons_True in Hl by done. done.
Qed.

Lemma SceneManager_eq s1 s2 :
  events s1 = events s2 → detectors s1 = detectors s2 →
  stats_manager s1 = stats_manager s2 → start_pos s1 = start_pos s2 →
  last_pos s1 = last_pos s2 → base_timecode s1 = base_timecode s2 →
  downscale s1 = downscale s2 → auto_downscale s1 = auto_downscale s2 →
  only_cuts s1 = only_cuts s2 → s1 = s2.
Proof. destruct s1, s2; simpl; congruence. Qed.

(** Two arrival sequences that agree on the events of every timecode hold
    the same events. *)
Lemma arrivals_elem_of evs e : e ∈ evs ↔ e ∈ arrivals (time e) evs.
Proof. unfold arrivals. rewrite list_elem_of_filter. tauto. Qed.

Lemma add_events_reorder s evs1 evs2 :
  (∀ t, arrivals t evs1 = arrivals t evs2) →
  add_events s evs1 = add_events s evs2.
Proof.
  intros Hsame.
  destruct (add_events_fields s evs1) as (? & ? & ? & ? & ? & ? & ?).
  destruct (add_events_fields s evs2) as (? & ? & ? & ? & ? & ? & ?).
  apply SceneManager_eq; try congruence.
  - apply map_eq. intros t. by rewrite !add_events_lookup, Hsame.
  - rewrite !add_events_only_cuts. f_equal.
    apply eq_true_iff_eq. rewrite !forallb_forall.
    split; intros Hall e He; apply Hall; apply list_elem_of_In;
      apply list_elem_of_In, arrivals_elem_of in He;
      apply arrivals_elem_of; congruence.
Qed.

(** ** Cuts while in a scene *)

Lemma on_events_cuts_added t evs (scenes : list Scene) :
  Forall (λ e, kind e = CUT) evs →
  foldl (on_event t) (mkAssembly true t scenes, true) evs
  = (mkAssembly true t scenes, true).
Proof.
  induction 1 as [|e evs He _ IH]; [done|].
  simpl. rewrite He. simpl. exact IH.
Qed.

(** Any number of cuts at one timecode, met in a scene, close it once and
    open the next one there. *)
Lemma on_timecode_cuts m a t evs :
  m !! t = Some evs → evs ≠ [] → Forall (λ e, kind e = CUT) evs →
  in_scene a = true →
  on_timecode m a t
  = mkAssembly true t (scene_list a ++ [(last_event_pos a, t)]).
Proof.
  intros Hevs Hne Hcuts Hin. unfold on_timecode. rewrite Hevs. simpl.
  destruct evs as [|e evs]; [done|]. apply Forall_cons in Hcuts as [He Hcuts].
  simpl. rewrite He, Hin.
  by rewrite on_events_cuts_added.
Qed.

(** C1: a ledger holding only CUT events, at frames 10, 30 and 50, of a run
    that started at frame 0 and last processed frame 60, with the cuts-only
    flag set, gives exactly the scenes (0,10), (10,30), (30,50), (50,61): each
    cut closes the current scene and opens the next, and the final scene ends
    one frame past the last processed position. *)
Theorem get_scene_list_three_cuts s cuts10 cuts30 cuts50 :
  events s = {[ 10 := cuts10; 30 := cuts30; 50 := cuts50 ]} →
  cuts10 ≠ [] → cuts30 ≠ [] → cuts50 ≠ [] →
  Forall (λ e, kind e = CUT) (cuts10 ++ cuts30 ++ cuts50) →
  only_cuts s = true → start_pos s = Some 0 → last_pos s = Some 60 →
  get_scene_list true s = Ok [(0, 10); (10, 30); (30, 50); (50, 61)].
Proof.
  intros Hev H10 H30 H50 Hcuts Hflag Hstart Hlast.
  apply Forall_app in Hcuts as [Hc10 Hcuts].
  apply Forall_app in Hcuts as [Hc30 Hc50].
  assert (Hkeys : sorted_keys (events s) = [10; 30; 50]).
  { rewrite Hev. vm_compute. reflexivity. }
  unfold get_scene_list. rewrite bool_decide_eq_false_2; last first.
  { intros Hempty%sorted_keys_empty. by rewrite Hkeys in Hempty. }
  rewrite Hstart. unfold assemble. rewrite Hkeys, Hflag. simpl.
  rewrite (on_timecode_cuts _ _ 10 cuts10); try done;
    [|by rewrite Hev, lookup_insert_eq].
  rewrite (on_timecode_cuts _ _ 30 cuts30); try done;
    [|by rewrite Hev, lookup_insert_ne, lookup_insert_eq].
  rewrite (on_timecode_cuts _ _ 50 cuts50); try done;
    [|by rewrite Hev, !lookup_insert_ne, ?lookup_singleton_eq].
  simpl. by rewrite Hlast.
Qed.

(** ** Settled properties of [get_scene_list] *)

(** Order of a returned scene list: whatever the ledger, consecutive scenes
    satisfy end[i] <= start[i+1]; a scene of zero or negative length needs an
    event timecode outside the recorded start and last positions, an OUT or
    CUT event that arrived after an IN event of the same timecode, or an OUT
    or CUT event at the start position itself. *)
Theorem get_scene_list_ordered s always_include_end scenes :
  get_scene_list always_include_end s = Ok scenes →
  scenes_chained scenes
  ∧ (∀ first final,
       start_pos s = Some first → last_pos s = Some final →
       map_Forall (λ t evs, first ≤ t ≤ final
                            ∧ close_after_open (bool_decide (t = first)) evs = false)
                  (events s) →
       Forall scene_nonempty scenes).
Proof.
  intros [[_ ->]|(Hne & start & Hstart & Hres)]%get_scene_list_Ok.
  { split; [by intros i a b ?|constructor]. }
  destruct (assemble_ordered s start) as (Hch & _ & _ & Hlastle).
  destruct Hres as [[-> _]|(final & Hfinal & _ & ->)].
  - split; [done|]. intros first final' Hfirst _ Hwf.
    assert (first = start) as -> by congruence.
    by apply (assemble_strict s start final').
  - split; [by apply scenes_chained_snoc|].
    intros first final' Hfirst Hfinal' Hwf.
    assert (first = start) as -> by congruence.
    assert (final' = final) as -> by congruence.
    destruct (assemble_strict s start final Hwf) as [Hall Hle].
    apply Forall_app. split; [done|]. constructor; [|constructor].
    unfold scene_nonempty. simpl. specialize (Hle Hne). lia.
Qed.

Lemma ending_at_sorted (scenes : list Scene) t :
  StronglySorted Z.lt scenes.*2 → (length (ending_at t scenes) ≤ 1)%nat.
Proof.
  unfold ending_at. induction scenes as [|sc scenes IH]; [simpl; lia|].
  intros [Hss Hall]%StronglySorted_inv. specialize (IH Hss).
  rewrite filter_cons. destruct (decide (sc.2 = t)) as [Heq|_]; [|done].
  assert (filter (λ sc0 : Scene, sc0.2 = t) scenes = []) as ->; [|simpl; lia].
  apply elem_of_nil_inv. intros sc' [Heq' Hsc']%list_elem_of_filter.
  rewrite Forall_forall in Hall.
  assert (sc.2 < sc'.2); [|lia].
  apply Hall, list_elem_of_fmap. by exists sc'.
Qed.

(** C8: for every ledger and every timecode, the loop of [get_scene_list]
    over the events appends at most one scene closing at that timecode,
    however many events of whatever kinds collide there, and it handles the
    events of one timecode in the order they arrived through [add_events],
    those stored before first.  Cuts that collide at one frame, met in a
    scene, close it once: two CUT events at frame 40 give exactly one
    boundary at 40.  The returned list keeps the bound at every timecode
    that holds no event, and at every timecode that holds events unless the
    final scene is included and the timecode lies one frame past the last
    position. *)
Theorem get_scene_list_one_boundary s t :
  (∀ start, (length (ending_at t (scene_list (assemble s start))) ≤ 1)%nat)
  ∧ (∀ evs start,
       assemble (add_events s evs) start
       = foldl (λ a timecode,
                  (foldl (on_event timecode) (a, false)
                         (default [] (events s !! timecode)
                          ++ arrivals timecode evs)).1)
               (mkAssembly (if only_cuts (add_events s evs) then true else false)
                           start [])
               (sorted_keys (events (add_events s evs))))
  ∧ (∀ a cuts,
       events s !! t = Some cuts → (2 ≤ length cuts)%nat →
       Forall (λ e, kind e = CUT) cuts → in_scene a = true →
       scene_list (on_timecode (events s) a t)
       = scene_list a ++ [(last_event_pos a, t)])
  ∧ (get_scene_list true Examples.double_cut = Ok [(0, 40); (40, 61)]
     ∧ length (ending_at 40 [(0, 40); (40, 61)]) = 1%nat)
  ∧ (∀ always_include_end scenes,
       get_scene_list always_include_end s = Ok scenes →
       events s !! t = None ∨ always_include_end = false
       ∨ last_pos s ≠ Some (t - 1) →
       (length (ending_at t scenes) ≤ 1)%nat).
Proof.
  assert (Hloop : ∀ start,
             (length (ending_at t (scene_list (assemble s start))) ≤ 1)%nat).
  { intros start. apply ending_at_sorted. apply (assemble_ordered s start). }
  split; [done|]. split; [|split; [|split]].
  - intros evs start. unfold assemble.
    generalize (mkAssembly (if only_cuts (add_events s evs) then true else false)
                           start []).
    induction (sorted_keys (events (add_events s evs))) as [|k ks IH];
      intros a; [done|].
    simpl. rewrite IH. f_equal. unfold on_timecode. do 2 f_equal.
    rewrite add_events_lookup.
    destruct (arrivals k evs); [by rewrite app_nil_r|done].
  - intros a cuts Hcuts Hlen Hall Hin.
    rewrite (on_timecode_cuts _ a t cuts); try done.
    intros ->. simpl in Hlen. lia.
  - split; vm_compute; reflexivity.
  - intros always_include_end scenes Hres Hside.
    apply get_scene_list_Ok in Hres
      as [[_ ->]|(_ & start & _ & [[-> _]|(final & Hfinal & Hin & ->)])];
      [simpl; lia|done|].
    unfold ending_at. rewrite filter_app, length_app.
    rewrite filter_cons, filter_nil. simpl.
    destruct (decide (final + 1 = t)) as [<-|_]; [|simpl; specialize (Hloop start);
      unfold ending_at in Hloop; lia].
    destruct Hside as [Hnone|[->|Hside]].
    + assert (filter (λ sc : Scene, sc.2 = final + 1) (scene_list (assemble s start))
              = []) as ->; [|simpl; lia].
      apply elem_of_nil_inv. intros sc [Hend Hsc]%list_elem_of_filter.
      destruct (assemble_ordered s start) as (_ & _ & Hkeys & _).
      rewrite Forall_forall in Hkeys. apply Hkeys in Hsc.
      apply elem_of_sorted_keys in Hsc as [evs Hevs].
      rewrite Hend in Hevs. by rewrite Hnone in Hevs.
    + by rewrite andb_false_r in Hin.
    + exfalso. apply Hside. rewrite Hfinal. f_equal. lia.
Qed.

Lemma add_events_batches s (batches : list (list (DetectionEvent Ctx))) :
  foldl add_events s batches = add_events s (concat batches).
Proof.
  revert s. induction batches as [|evs batches IH]; intros s; simpl; [done|].
  by rewrite IH, add_events_app.
Qed.

(** C9: two arrival orders of the same events, fed through [add_events] in
    any number of calls, that agree on the order of the events of every single
    timecode give ledgers on which [get_scene_list] returns the same scene
    list; how events of distinct timecodes interleave does not matter. *)
Theorem get_scene_list_arrival_order_irrelevant s always_include_end
    (batches1 batches2 : list (list (DetectionEvent Ctx))) :
  (∀ t, arrivals t (concat batches1) = arrivals t (concat batches2)) →
  get_scene_list always_include_end (foldl add_events s batches1)
  = get_scene_list always_include_end (foldl add_events s batches2).
Proof.
  intros Hsame. rewrite !add_events_batches.
  by rewrite (add_events_reorder s _ _ Hsame).
Qed.

Lemma get_scene_list_defined s always_include_end start final :
  start_pos s = Some start → last_pos s = Some final →
  ∃ scenes, get_scene_list always_include_end s = Ok scenes.
Proof.
  intros Hstart Hfinal. unfold get_scene_list. rewrite Hstart, Hfinal.
  case_bool_decide; [by eexists|].
  destruct (in_scene _ && always_include_end); by eexists.
Qed.

(** C10: [get_scene_list] on a non-empty ledger needs the positions a run
    records.  When events were added but no start position was ever recorded,
    the initial assertion fails; when the loops end in a scene, the final
    scene is asked for and no last position was recorded, adding one to the
    missing position is an error and no list is returned.  With both
    positions recorded the call returns a list. *)
Theorem get_scene_list_needs_positions s always_include_end :
  (∀ evs, evs ≠ [] → start_pos s = None →
          get_scene_list always_include_end (add_events s evs) = Raise AssertionError)
  ∧ (events s ≠ ∅ → start_pos s = None →
     get_scene_list always_include_end s = Raise AssertionError)
  ∧ (∀ start, events s ≠ ∅ → start_pos s = Some start → last_pos s = None →
              in_scene (assemble s start) = true →
              get_scene_list true s = Raise TypeError)
  ∧ (∀ start final, start_pos s = Some start → last_pos s = Some final →
                    ∃ scenes, get_scene_list always_include_end s = Ok scenes).
Proof.
  assert (Hassert : ∀ s' : SceneManager Ctx Frame StatsManager World,
             events s' ≠ ∅ → start_pos s' = None →
             get_scene_list always_include_end s' = Raise AssertionError).
  { intros s' Hne Hstart. unfold get_scene_list.
    rewrite bool_decide_eq_false_2 by done. by rewrite Hstart. }
  split; [|split; [|split]].
  - intros evs Hevs Hstart. apply Hassert; [by apply add_events_nonempty|].
    destruct (add_events_fields s evs) as (_ & _ & -> & _). done.
  - apply Hassert.
  - intros start Hne Hstart Hlast Hin. unfold get_scene_list.
    rewrite bool_decide_eq_false_2 by done. by rewrite Hstart, Hin, Hlast.
  - intros start final. apply get_scene_list_defined.
Qed.

End ledger_facts.

Section cut_list_facts.
Context {Ctx Frame StatsManager World : Type}.
Implicit Types (s : SceneManager Ctx Frame StatsManager World).

Lemma StronglySorted_filter_lt (P : Z → Prop) `{!∀ x, Decision (P x)} (l : list Z) :
  StronglySorted Z.lt l → StronglySorted Z.lt (filter P l).
Proof.
  induction 1 as [|x l Hl IH Hx]; [constructor|].
  rewrite filter_cons. destruct (decide (P x)); [|done].
  constructor; [done|].
  rewrite Forall_forall in Hx |- *.
  intros y [_ Hy]%list_elem_of_filter. by apply Hx.
Qed.

Lemma cut_timecodes_sorted s : StronglySorted Z.lt (cut_timecodes s).
Proof. apply StronglySorted_filter_lt, sorted_keys_sorted. Qed.

Lemma elem_of_cut_timecodes s t :
  t ∈ cut_timecodes s
  ↔ ∃ evs, events s !! t = Some evs ∧ ∃ e, e ∈ evs ∧ kind e = CUT.
Proof.
  unfold cut_timecodes. rewrite list_elem_of_filter, elem_of_sorted_keys.
  rewrite existsb_exists. split.
  - intros [(e & He & Hk) [evs Hevs]]. exists evs. split; [done|].
    rewrite Hevs in He. simpl in He. exists e.
    split; [by apply list_elem_of_In|]. by apply bool_decide_eq_true in Hk.
  - intros (evs & Hevs & e & He & Hk). split; [|by exists evs].
    exists e. rewrite Hevs. simpl.
    split; [by apply list_elem_of_In|]. by apply bool_decide_eq_true.
Qed.

(** The loop of [get_cut_list] against the filter of the specification. *)
Lemma foldl_keep_spaced (minimum_spacing : Z) (filtered_cuts : list Z) kept cuts :
  last filtered_cuts = Some kept →
  foldl (keep_spaced minimum_spacing) filtered_cuts cuts
  = filtered_cuts ++ keep_after minimum_spacing kept cuts.
Proof.
  revert filtered_cuts kept.
  induction cuts as [|cut cuts IH]; intros filtered_cuts kept Hlast; simpl.
  { by rewrite app_nil_r. }
  unfold keep_spaced at 2. rewrite Hlast.
  rewrite (bool_decide_ext (cut - kept >= minimum_spacing)
                           (minimum_spacing ≤ cut - kept)) by lia.
  case_bool_decide.
  - rewrite (IH _ cut) by apply last_snoc. by rewrite <- app_assoc.
  - by apply IH.
Qed.

Lemma get_cut_list_greedy (minimum_spacing : Z) s :
  get_cut_list minimum_spacing s
  = if bool_decide (1 < minimum_spacing)
    then greedy_spacing minimum_spacing (cut_timecodes s)
    else cut_timecodes s.
Proof.
  unfold get_cut_list.
  rewrite (bool_decide_ext (minimum_spacing > 1) (1 < minimum_spacing)) by lia.
  case_bool_decide; [|done]. simpl.
  destruct (cut_timecodes s) as [|first [|second cuts]]; try done.
  rewrite bool_decide_eq_true_2 by (simpl; lia).
  by rewrite (foldl_keep_spaced _ _ first).
Qed.

(** C7: [get_cut_list] collects, in ascending order, exactly the timecodes
    that hold at least one CUT event; with a minimum spacing above 1 it keeps
    the first cut and then every cut that lies at least the minimum spacing
    after the most recently kept one; with a minimum spacing of at most 1 it
    returns all of them.  Cuts at frames 10, 12, 13 and 40 with a minimum
    spacing of 5 give [10; 40]. *)
Theorem get_cut_list_spec (minimum_spacing : Z) s :
  StronglySorted Z.lt (cut_timecodes s)
  ∧ (∀ t, t ∈ cut_timecodes s
          ↔ ∃ evs, events s !! t = Some evs ∧ ∃ e, e ∈ evs ∧ kind e = CUT)
  ∧ (1 < minimum_spacing →
     get_cut_list minimum_spacing s
     = greedy_spacing minimum_spacing (cut_timecodes s))
  ∧ (minimum_spacing ≤ 1 ∨ (length (cut_timecodes s) ≤ 1)%nat →
     get_cut_list minimum_spacing s = cut_timecodes s)
  ∧ get_cut_list 5 Examples.four_cuts = [10; 40].
Proof.
  split; [apply cut_timecodes_sorted|].
  split; [apply elem_of_cut_timecodes|].
  rewrite get_cut_list_greedy.
  split; [|split].
  - intros Hms. by rewrite bool_decide_eq_true_2.
  - intros [Hms|Hlen]; [rewrite bool_decide_eq_false_2; [done|lia]|].
    case_bool_decide; [|done].
    by destruct (cut_timecodes s) as [|first [|second cuts]]; simpl in *; try lia.
  - vm_compute. reflexivity.
Qed.

End cut_list_facts.

Section orchestrator_facts.
Context {Ctx Frame StatsManager World : Type}.
Implicit Types (s : SceneManager Ctx Frame StatsManager World) (w : World).

(** C4: with [fade_bias = None] every event of the ledger, of whatever kind,
    is replaced by a CUT event with the same timecode and context, the keys
    and the number of events per key staying as they are; with any other
    [fade_bias], the default 0.0 included, the call raises
    [NotImplementedError] and leaves the manager, ledger included, as it
    was. *)
Theorem transform_events_to_cuts_spec {Float : Type} s :
  (∃ s', transform_events_to_cuts (@None Float) s = (Ok (), s')
         ∧ (∀ t, option_Forall2 (Forall2 cut_of) (events s !! t) (events s' !! t))
         ∧ dom (events s') = dom (events s))
  ∧ (∀ fade_bias : Float,
       transform_events_to_cuts (Some fade_bias) s = (Raise NotImplementedError, s)).
Proof.
  split; [|done]. eexists. split; [done|]. simpl. split.
  - intros t. rewrite lookup_fmap.
    destruct (events s !! t) as [evs|]; simpl; constructor.
    apply Forall2_fmap_r, Forall_Forall2_diag, Forall_forall.
    intros e _. by repeat split.
  - apply dom_fmap_L.
Qed.

(** What [_is_processing_required] computes: every registered detector must
    report missing metrics. *)
Lemma _is_processing_required_all s frame_num w :
  _is_processing_required s frame_num w = true
  ↔ stats_manager s = None
    ∨ ∀ detector, detector ∈ detectors s →
                  is_processing_required detector frame_num w = true.
Proof.
  unfold _is_processing_required. destruct (stats_manager s) as [stats|].
  - rewrite forallb_forall. split.
    + intros Hall. right. intros d Hd. by apply Hall, list_elem_of_In.
    + intros [?|Hall]; [done|]. intros d Hd. by apply Hall, list_elem_of_In.
  - split; [by left|done].
Qed.

(** C3 (the code departs from the claim): with a metric cache attached, a
    detector whose metrics are missing and a detector whose metrics are
    cached, the decision of the code is that no processing is required, for
    the frame and for the one after it, where the claim makes it required. *)
Theorem _is_processing_required_one_missing :
  _is_processing_required Examples.two_detectors 0 () = false
  ∧ _is_processing_required Examples.two_detectors (0 + 1) () = false
  ∧ processing_required_spec Examples.two_detectors 0 () = true.
Proof. by repeat split. Qed.

(** The factor is the floor quotient clamped to 1, and the effective width
    lies in [W, 2W) for frames at least [W] wide. *)
Lemma compute_downscale_factor_value (frame_width effective_width : Z) :
  1 ≤ frame_width → 1 ≤ effective_width →
  compute_downscale_factor frame_width effective_width
  = Ok (1 `max` (frame_width `div` effective_width)).
Proof.
  intros Hw He. unfold compute_downscale_factor.
  rewrite bool_decide_eq_false_2 by lia.
  case_bool_decide as Hlt; f_equal.
  - rewrite Z.div_small by lia. lia.
  - assert (1 ≤ frame_width `div` effective_width); [|lia].
    apply Z.div_le_lower_bound; lia.
Qed.

Lemma compute_downscale_factor_width (frame_width effective_width factor : Z) :
  1 ≤ effective_width ≤ frame_width →
  compute_downscale_factor frame_width effective_width = Ok factor →
  effective_width ≤ frame_width `div` factor < 2 * effective_width.
Proof.
  intros [He Hw]. rewrite compute_downscale_factor_value by lia.
  intros [= <-].
  assert (1 ≤ frame_width `div` effective_width) as Hk
    by (apply Z.div_le_lower_bound; lia).
  rewrite Z.max_r by lia.
  pose proof (Z.mul_div_le frame_width effective_width ltac:(lia)) as Hlo.
  pose proof (Z.mul_succ_div_gt frame_width effective_width ltac:(lia)) as Hhi.
  revert Hk Hlo Hhi.
  generalize (frame_width `div` effective_width). intros k Hk Hlo Hhi.
  split.
  - apply Z.div_le_lower_bound; lia.
  - apply Z.div_lt_upper_bound; nia.
Qed.


Section detect_scenes.
Variables (tqdm : option (ProgressBar World)) (subsample : Z → Frame → Frame).

Lemma compute_downscale_factor_raises (frame_width effective_width : Z) e :
  compute_downscale_factor frame_width effective_width = Raise e →
  e = AssertionError.
Proof.
  unfold compute_downscale_factor. repeat case_bool_decide; congruence.
Qed.

(** C6: [detect_scenes] raises [ValueError], with the manager and the world
    (the frame source in it) untouched, when [frame_skip > 0] with a metric
    cache attached, when both [duration] and [end_time] are given, when
    [duration] is negative and when [end_time] is negative; in every other
    case it does not raise [ValueError]. *)
Theorem detect_scenes_validation fuel video duration end_time frame_skip
    show_progress callback s w :
  (invalid_arguments s duration end_time frame_skip →
   detect_scenes tqdm subsample fuel video duration end_time frame_skip
                 show_progress callback s w
   = Some (Raise ValueError, s, w))
  ∧ (¬ invalid_arguments s duration end_time frame_skip →
     ∀ outcome s' w',
       detect_scenes tqdm subsample fuel video duration end_time frame_skip
                     show_progress callback s w
       = Some (outcome, s', w') →
       outcome ≠ Raise ValueError).
Proof.
  unfold invalid_arguments, detect_scenes. split.
  - intros Hbad.
    destruct (bool_decide (frame_skip > 0) && is_not_none (stats_manager s)) eqn:H1;
      [done|].
    destruct (is_not_none duration && is_not_none end_time) eqn:H2; [done|].
    destruct duration as [d|], end_time as [e|]; simpl in *; try done;
      repeat case_bool_decide; try done; exfalso;
      destruct (stats_manager s); simpl in *;
      destruct Hbad as [[? ?]|[[? ?]|[(? & ? & ?)|(? & ? & ?)]]];
      simplify_eq; try done; lia.
  - intros Hok outcome s' w'.
    destruct (bool_decide (frame_skip > 0) && is_not_none (stats_manager s)) eqn:H1.
    { exfalso. apply Hok. left. apply andb_prop in H1 as [H1 H1'].
      apply bool_decide_eq_true in H1. split; [done|].
      by destruct (stats_manager s). }
    destruct (is_not_none duration && is_not_none end_time) eqn:H2.
    { exfalso. apply Hok. right. left. by destruct duration, end_time. }
    destruct (match duration with Some d => bool_decide (d < 0) | None => false end)
      eqn:H3.
    { exfalso. apply Hok. right. right. left. destruct duration as [d|]; [|done].
      exists d. split; [done|]. by apply bool_decide_eq_true in H3. }
    destruct (match end_time with Some e => bool_decide (e < 0) | None => false end)
      eqn:H4.
    { exfalso. apply Hok. right. right. right. destruct end_time as [e|]; [|done].
      exists e. split; [done|]. by apply bool_decide_eq_true in H4. }
    cbv zeta.
    destruct (auto_downscale _).
    + destruct (compute_downscale_factor _ _) as [factor|e] eqn:Hf.
      * destruct (frame_loop _ _ _ _ _ _ _ _ _ _ _) as [[s1 w1]|]; [|done].
        destruct (_post_process _ _ _) as [s2 w2]. by intros [= <- _ _].
      * apply compute_downscale_factor_raises in Hf as ->. by intros [= <- _ _].
    + destruct (frame_loop _ _ _ _ _ _ _ _ _ _ _) as [[s1 w1]|]; [|done].
      destruct (_post_process _ _ _) as [s2 w2]. by intros [= <- _ _].
Qed.

End detect_scenes.

End orchestrator_facts.

(** * The theorems at concrete managers *)

Lemma get_scene_list_three_cuts_witness :
  get_scene_list true Examples.three_cuts
  = Ok [(0, 10); (10, 30); (30, 50); (50, 61)].
Proof.
  apply (get_scene_list_three_cuts Examples.three_cuts
           [Examples.ev CUT 10] [Examples.ev CUT 30] [Examples.ev CUT 50]).
  - vm_compute. reflexivity.
  - discriminate.
  - discriminate.
  - discriminate.
  - repeat constructor.
  - reflexivity.
  - reflexivity.
  - reflexivity.
Defined.

(** C2: a fade in and a fade out reported at the same frame 5, in a run from
    frame 0 to frame 10, give the scene (5, 5), whose start is not before its
    end, with or without the end of the video included; [save_images] cannot
    take a frame from such a scene and raises [IndexError]. *)
Lemma get_scene_list_zero_length_scene :
  start_pos Examples.in_out_same_frame = Some 0
  ∧ last_pos Examples.in_out_same_frame = Some 10
  ∧ events Examples.in_out_same_frame
    = {[ 5 := [Examples.ev IN 5; Examples.ev OUT 5] ]}
  ∧ get_scene_list true Examples.in_out_same_frame = Ok [(5, 5)]
  ∧ get_scene_list false Examples.in_out_same_frame = Ok [(5, 5)]
  ∧ ¬ Forall scene_nonempty [(5, 5)]
  ∧ save_images_timecodes [(5, 5)] 3 1 = Raises IndexError.
Proof.
  split; [reflexivity|]. split; [reflexivity|]. split; [vm_compute; reflexivity|].
  split; [vm_compute; reflexivity|]. split; [vm_compute; reflexivity|].
  split; [|vm_compute; reflexivity].
  intros Hall. apply Forall_cons in Hall as [Hlt _].
  unfold scene_nonempty in Hlt. simpl in Hlt. lia.
Qed.

Lemma get_scene_list_ordered_witness :
  scenes_chained [(5, 12); (12, 20)] ∧ Forall scene_nonempty [(5, 12); (12, 20)].
Proof.
  destruct (get_scene_list_ordered Examples.fade_in_out true [(5, 12); (12, 20)])
    as [Hchained Hnonempty].
  - vm_compute. reflexivity.
  - split; [exact Hchained|].
    apply (Hnonempty 0 25); [reflexivity|reflexivity|].
    refine (bool_decide_unpack _ _). vm_compute. exact I.
Defined.

Lemma get_cut_list_spec_witness :
  get_cut_list 5 Examples.four_cuts
  = greedy_spacing 5 (cut_timecodes Examples.four_cuts)
  ∧ get_cut_list 1 Examples.four_cuts = [10; 12; 13; 40]
  ∧ 40 ∈ cut_timecodes Examples.four_cuts.
Proof.
  destruct (get_cut_list_spec 5 Examples.four_cuts) as (_ & Hmem & Hgreedy & _ & _).
  destruct (get_cut_list_spec 1 Examples.four_cuts) as (_ & _ & _ & Hall & _).
  split; [apply Hgreedy; lia|].
  split; [rewrite Hall by (left; lia); vm_compute; reflexivity|].
  apply Hmem. exists [Examples.ev CUT 40].
  split; [vm_compute; reflexivity|].
  exists (Examples.ev CUT 40). split; [by left|reflexivity].
Defined.

(** The final scene is appended after the loop over the events: with a cut
    stored at frame 11 by a run that last processed frame 10, the cut closes
    a scene at 11 and the final scene, ending one frame past the last
    position, closes at 11 as well. *)
Lemma get_scene_list_two_scenes_at_one_timecode :
  get_scene_list true Examples.cut_past_end = Ok [(0, 11); (11, 11)]
  ∧ length (ending_at 11 [(0, 11); (11, 11)]) = 2%nat.
Proof. split; vm_compute; reflexivity. Qed.

Lemma get_scene_list_one_boundary_witness :
  scene_list (on_timecode (events Examples.double_cut) (mkAssembly true 0 []) 40)
  = [(0, 40)]%Z
  ∧ (length (ending_at 40 [(0, 40); (40, 61)]%Z) ≤ 1)%nat
  ∧ (length (ending_at 11 [(0, 11)]%Z) ≤ 1)%nat.
Proof.
  split; [|split].
  - refine (proj1 (proj2 (proj2 (get_scene_list_one_boundary Examples.double_cut 40)))
              (mkAssembly true 0 []) [Examples.ev CUT 40; Examples.ev CUT 40] _ _ _ _).
    + vm_compute. reflexivity.
    + simpl. lia.
    + repeat constructor.
    + reflexivity.
  - refine (proj2 (proj2 (proj2 (proj2
              (get_scene_list_one_boundary Examples.double_cut 40))))
              true [(0, 40); (40, 61)] _ _).
    + vm_compute. reflexivity.
    + right. right. discriminate.
  - refine (proj2 (proj2 (proj2 (proj2
              (get_scene_list_one_boundary Examples.cut_past_end 11))))
              false [(0, 11)] _ _).
    + vm_compute. reflexivity.
    + right. left. reflexivity.
Defined.

Lemma get_scene_list_arrival_order_irrelevant_witness :
  get_scene_list true
    (foldl add_events (Examples.ran 0 25 true ∅)
       [[Examples.ev OUT 20; Examples.ev IN 5]; [Examples.ev CUT 12; Examples.ev CUT 20]])
  = get_scene_list true
      (foldl add_events (Examples.ran 0 25 true ∅)
         [[Examples.ev IN 5; Examples.ev CUT 12; Examples.ev OUT 20; Examples.ev CUT 20]]).
Proof.
  apply get_scene_list_arrival_order_irrelevant.
  intros t. unfold arrivals. simpl.
  rewrite !filter_cons, !filter_nil. simpl.
  destruct (decide (20 = t)), (decide (5 = t)), (decide (12 = t)); try lia; reflexivity.
Defined.

Lemma get_scene_list_needs_positions_witness :
  get_scene_list true (add_events Examples.fresh [Examples.ev CUT 5])
  = Raise AssertionError
  ∧ get_scene_list true Examples.interrupted = Raise TypeError
  ∧ ∃ scenes, get_scene_list true Examples.three_cuts = Ok scenes.
Proof.
  split; [|split].
  - refine (proj1 (get_scene_list_needs_positions Examples.fresh true) _ _ _).
    + discriminate.
    + reflexivity.
  - refine (proj1 (proj2 (proj2 (get_scene_list_needs_positions
                                   Examples.interrupted true))) 0 _ _ _ _).
    + vm_compute. discriminate.
    + reflexivity.
    + reflexivity.
    + vm_compute. reflexivity.
  - refine (proj2 (proj2 (proj2 (get_scene_list_needs_positions
                                   Examples.three_cuts true))) 0 60 _ _);
      reflexivity.
Defined.

Lemma detect_scenes_validation_witness :
  detect_scenes None (λ _ im, im) 1 Examples.no_video (Some 5) (Some 10) 0 false None
                Examples.two_detectors ()
  = Some (Raise ValueError, Examples.two_detectors, ())
  ∧ detect_scenes None (λ _ im, im) 1 Examples.no_video None (Some 10) 0 false None
                  Examples.two_detectors ()
    ≠ Some (Raise ValueError, Examples.two_detectors, ()).
Proof.
  split.
  - refine (proj1 (detect_scenes_validation None (λ _ im, im) 1 Examples.no_video
                     (Some 5) (Some 10) 0 false None Examples.two_detectors ()) _).
    right. left. split; discriminate.
  - intros Hraise.
    refine (proj2 (detect_scenes_validation None (λ _ im, im) 1 Examples.no_video
                     None (Some 10) 0 false None Examples.two_detectors ())
                  _ _ _ _ Hraise eq_refl).
    intros [[Hskip _]|[[Hduration _]|[(d & Hd & _)|(e & He & Hneg)]]].
    + lia.
    + by apply Hduration.
    + discriminate.
    + injection He as <-. lia.
Defined.

(** * More of [SceneManager] *)

Section event_list_facts.
Context {Ctx Frame StatsManager World : Type}.
Implicit Types (s : SceneManager Ctx Frame StatsManager World).
Implicit Types (m : gmap Z (list (DetectionEvent Ctx))).
Implicit Types (evs : list (DetectionEvent Ctx)).

Lemma add_events_lookup_default s evs t :
  default [] (events (add_events s evs) !! t)
  = default [] (events s !! t) ++ arrivals t evs.
Proof.
  rewrite add_events_lookup.
  destruct (arrivals t evs); [by rewrite app_nil_r|done].
Qed.

Lemma foldl_app_concat {A : Type} (acc : list A) (ls : list (list A)) :
  foldl (λ acc l, acc ++ l) acc ls = acc ++ concat ls.
Proof.
  revert acc. induction ls as [|l ls IH]; intros acc; simpl.
  - by rewrite app_nil_r.
  - by rewrite IH, app_assoc.
Qed.

Lemma elem_of_concat {A : Type} (x : A) (ls : list (list A)) :
  x ∈ concat ls ↔ ∃ l, x ∈ l ∧ l ∈ ls.
Proof.
  induction ls as [|l ls IH]; simpl.
  - split; [by intros ?%elem_of_nil|by intros (? & _ & ?%elem_of_nil)].
  - rewrite elem_of_app, IH. split.
    + intros [?|(l' & ? & ?)]; [exists l|exists l']; split; try done; [by left|by right].
    + intros (l' & ? & [->|?]%elem_of_cons); [by left|right; by exists l'].
Qed.

Lemma get_event_list_concat s :
  get_event_list s
  = concat ((λ t, default [] (events s !! t)) <$> sorted_keys (events s)).
Proof. unfold get_event_list. by rewrite foldl_app_concat. Qed.

(** All events of a ledger, in the order of [map_to_list]. *)
Lemma get_event_list_perm s :
  get_event_list s ≡ₚ concat (map_to_list (events s)).*2.
Proof.
  rewrite get_event_list_concat, sorted_keys_perm.
  assert ((λ t, default [] (events s !! t)) <$> (map_to_list (events s)).*1
          = (map_to_list (events s)).*2) as ->; [|done].
  rewrite <- list_fmap_compose. apply list_fmap_ext.
  intros i [k v] Hkv. simpl.
  apply list_elem_of_lookup_2, elem_of_map_to_list in Hkv. by rewrite Hkv.
Qed.

Lemma concat_snd_insert m k (v : list (DetectionEvent Ctx)) :
  concat (map_to_list (<[k := v]> m)).*2
  ≡ₚ v ++ concat (map_to_list (delete k m)).*2.
Proof.
  rewrite <- insert_delete_eq.
  rewrite map_to_list_insert by apply lookup_delete_eq. done.
Qed.

Lemma concat_snd_lookup m k (v : list (DetectionEvent Ctx)) :
  m !! k = Some v →
  concat (map_to_list m).*2 ≡ₚ v ++ concat (map_to_list (delete k m)).*2.
Proof.
  intros Hk. rewrite <- (insert_id m k v) at 1 by done. apply concat_snd_insert.
Qed.

Lemma get_event_list_add_event s e :
  get_event_list (add_event s e) ≡ₚ get_event_list s ++ [e].
Proof.
  rewrite !get_event_list_perm, add_event_events, concat_snd_insert.
  destruct (events s !! time e) as [old|] eqn:Hold; simpl.
  - rewrite (concat_snd_lookup _ _ _ Hold).
    rewrite <- !app_assoc. apply Permutation_app_head, Permutation_app_comm.
  - rewrite delete_id by done. apply (Permutation_app_comm [e]).
Qed.

Lemma get_event_list_add_events s evs :
  get_event_list (add_events s evs) ≡ₚ get_event_list s ++ evs.
Proof.
  revert s. induction evs as [|e evs IH]; intros s; simpl.
  - by rewrite app_nil_r.
  - change (foldl add_event (add_event s e) evs) with (add_events (add_event s e) evs).
    rewrite IH, get_event_list_add_event, <- app_assoc. done.
Qed.

(** On a well-formed ledger the events of one timecode are the ones stored
    under it. *)
Lemma arrivals_group m t k evs :
  ledger_wf m → m !! k = Some evs →
  arrivals t evs = if decide (k = t) then evs else [].
Proof.
  intros Hwf Hk. destruct (Hwf k evs Hk) as [_ Htime]. clear Hk. unfold arrivals.
  destruct (decide (k = t)) as [<-|Hne].
  - induction Htime as [|e evs He _ IH]; [done|].
    rewrite filter_cons_True by done. by rewrite IH.
  - induction Htime as [|e evs He _ IH]; [done|].
    rewrite filter_cons_False by congruence. done.
Qed.

Lemma arrivals_concat_keys m t (ks : list Z) :
  ledger_wf m → NoDup ks → (∀ k, k ∈ ks → is_Some (m !! k)) →
  arrivals t (concat ((λ k, default [] (m !! k)) <$> ks))
  = if decide (t ∈ ks) then default [] (m !! t) else [].
Proof.
  intros Hwf. induction 1 as [|k ks Hnotin Hnd IH]; intros Hall; csimpl.
  { done. }
  unfold arrivals in *. rewrite filter_app.
  destruct (Hall k) as [evs Hk]; [by left|]. rewrite Hk. csimpl.
  pose proof (arrivals_group m t k evs Hwf Hk) as Hgroup. unfold arrivals in Hgroup.
  rewrite Hgroup, IH by (intros k' Hk'; apply Hall; by right).
  destruct (decide (k = t)) as [->|Hne].
  - destruct (decide (t ∈ ks)) as [|_]; [done|].
    destruct (decide (t ∈ t :: ks)) as [_|Hnin]; [|by destruct Hnin; left].
    by rewrite Hk, app_nil_r.
  - simpl. destruct (decide (t ∈ ks)) as [Hin|Hnin].
    + destruct (decide (t ∈ k :: ks)) as [_|Hnin]; [done|]. by destruct Hnin; right.
    + destruct (decide (t ∈ k :: ks)) as [[?|?]%elem_of_cons|_]; [congruence|done|done].
Qed.

Lemma get_event_list_arrivals s t :
  ledger_wf (events s) →
  arrivals t (get_event_list s) = default [] (events s !! t).
Proof.
  intros Hwf. rewrite get_event_list_concat.
  rewrite (arrivals_concat_keys _ _ _ Hwf (sorted_keys_NoDup _)).
  - destruct (decide (t ∈ sorted_keys (events s))) as [|Hnin]; [done|].
    rewrite elem_of_sorted_keys in Hnin.
    apply eq_None_not_Some in Hnin. by rewrite Hnin.
  - intros k. apply elem_of_sorted_keys.
Qed.

Lemma get_event_list_sorted s :
  ledger_wf (events s) →
  StronglySorted (λ e1 e2, time e1 ≤ time e2) (get_event_list s).
Proof.
  intros Hwf. rewrite get_event_list_concat.
  pose proof (sorted_keys_sorted (events s)) as Hsorted.
  assert (Hall : ∀ k, k ∈ sorted_keys (events s) → is_Some (events s !! k))
    by (intros k; apply elem_of_sorted_keys).
  induction Hsorted as [|k ks Hks IH Hlt]; csimpl; [constructor|].
  destruct (Hall k) as [evs Hk]; [by left|]. rewrite Hk. csimpl.
  destruct (Hwf k evs Hk) as [_ Htime].
  apply StronglySorted_app. split; [|split].
  - intros e1 e2 He1 He2.
    rewrite Forall_forall in Htime. rewrite (Htime e1 He1).
    apply elem_of_concat in He2 as (grp & He2 & Hgrp).
    apply list_elem_of_fmap in Hgrp as (k' & -> & Hk').
    destruct (Hall k') as [evs' Hk'']; [by right|]. rewrite Hk'' in He2. simpl in He2.
    destruct (Hwf k' evs' Hk'') as [_ Htime']. rewrite Forall_forall in Htime'.
    rewrite (Htime' e2 He2). rewrite Forall_forall in Hlt. specialize (Hlt k' Hk'). lia.
  - clear -Htime. induction Htime as [|e evs He Hevs IH]; constructor; [done|].
    eapply Forall_impl; [exact Hevs|]. simpl. intros e' He'. lia.
  - apply IH. intros k' Hk'. apply Hall. by right.
Qed.

End event_list_facts.

Section invariant_facts.
Context {Ctx Frame StatsManager World : Type}.
Implicit Types (s : SceneManager Ctx Frame StatsManager World) (w : World).
Implicit Types (evs : list (DetectionEvent Ctx)).

(** ** Properties every method of the manager keeps *)

(** A property of managers that adding events and recording a first start
    position keep is kept by the frame loop. *)
Lemma _process_frame_preserves (P : SceneManager Ctx Frame StatsManager World → Prop)
    timecode frame_im callback s w :
  (∀ s evs, P s → P (add_events s evs)) →
  P s → P (_process_frame timecode frame_im callback (s, w)).1.
Proof.
  intros Hadd. unfold _process_frame. simpl.
  generalize (detectors s). intros ds. revert s w.
  induction ds as [|d ds IH]; intros s w HP; simpl; [done|].
  destruct (process_frame d timecode frame_im w) as [evs w1].
  destruct evs as [|e evs], callback as [call|]; apply IH; by apply Hadd.
Qed.

Lemma _post_process_preserves (P : SceneManager Ctx Frame StatsManager World → Prop)
    start_time end_time s w :
  (∀ s evs, P s → P (add_events s evs)) →
  P s → P (_post_process start_time end_time (s, w)).1.
Proof.
  intros Hadd. unfold _post_process. simpl.
  generalize (detectors s). intros ds. revert s w.
  induction ds as [|d ds IH]; intros s w HP; simpl; [done|].
  destruct (post_process d start_time end_time w) as [evs w1].
  apply IH. by apply Hadd.
Qed.

Lemma frame_loop_preserves (P : SceneManager Ctx Frame StatsManager World → Prop)
    subsample fuel video factor end_time frame_skip progress_bar callback
    frame_im s w s' w' :
  (∀ s evs, P s → P (add_events s evs)) →
  (∀ s p, P s → start_pos s = None → P (set_start_pos s (Some p))) →
  P s →
  frame_loop subsample fuel video factor end_time frame_skip progress_bar callback
             frame_im s w = Some (s', w') →
  P s'.
Proof.
  intros Hadd Hstart. revert frame_im s w.
  induction fuel as [|fuel IH]; intros frame_im s w HP; simpl; [done|].
  set (fetched := if _ || _ then _ else _).
  destruct fetched as [[frame_im'|] w1]; [|by intros [= <- _]].
  set (s1 := match start_pos s with None => _ | Some _ => s end).
  assert (P s1) as HP1.
  { subst s1. destruct (start_pos s) eqn:Hs; [done|]. by apply Hstart. }
  pose proof (_process_frame_preserves P (video_position video w1) frame_im'
                callback s1 w1 Hadd HP1) as HP2.
  destruct (_process_frame _ _ _ _) as [s2 w2]. simpl in HP2.
  destruct end_time as [e|]; [case_bool_decide; [by intros [= <- _]|]|]; by apply IH.
Qed.

Lemma set_start_pos_same s p : start_pos s = Some p → set_start_pos s (Some p) = s.
Proof. intros Hp. apply SceneManager_eq; simpl; try done. Qed.

(** ... and by [detect_scenes], whatever its outcome, when the assignments to
    the base timecode and to the last position keep it too. *)
Lemma detect_scenes_preserves (P : SceneManager Ctx Frame StatsManager World → Prop)
    tqdm subsample fuel video duration end_time frame_skip show_progress callback
    s w outcome s' w' :
  (∀ s evs, P s → P (add_events s evs)) →
  (∀ s p, P s → start_pos s = None → P (set_start_pos s (Some p))) →
  (∀ s p, P s → P (set_base_timecode s p)) →
  (∀ s p, P s → P (set_last_pos s p)) →
  P s →
  detect_scenes tqdm subsample fuel video duration end_time frame_skip
                show_progress callback s w = Some (outcome, s', w') →
  P s'.
Proof.
  intros Hadd Hstart Hbase Hlast HP. unfold detect_scenes.
  repeat (match goal with
          | |- context [if ?b then Some (Raise ValueError, s, w) else _] =>
              destruct b; [by intros [= _ <- _]|]
          end).
  cbv zeta.
  set (s0 := set_base_timecode s _). assert (P s0) as HP0 by by apply Hbase.
  clearbody s0.
  destruct (if auto_downscale s0 then _ else _) as [factor|e];
    [|by intros [= _ <- _]].
  destruct (frame_loop _ _ _ _ _ _ _ _ _ _ _) as [[s1 w1]|] eqn:Hloop; [|done].
  apply (frame_loop_preserves P) in Hloop; [|done..].
  set (start := match start_pos s1 with None => _ | Some p => p end).
  assert (P (set_start_pos s1 (Some start))) as HP2.
  { subst start. destruct (start_pos s1) eqn:Hs.
    - by rewrite set_start_pos_same.
    - by apply Hstart. }
  pose proof (_post_process_preserves P start (video_position video w1)
                (set_start_pos s1 (Some start)) w1 Hadd HP2) as HP3.
  destruct (_post_process _ _ _) as [s3 w3]. simpl in HP3.
  intros [= _ <- _]. by apply Hlast.
Qed.

End invariant_facts.

Section wf_facts.
Context {Ctx Frame StatsManager World : Type}.
Implicit Types (s : SceneManager Ctx Frame StatsManager World) (w : World).
Implicit Types (evs : list (DetectionEvent Ctx)).

Lemma manager_wf_init (stats : option StatsManager) :
  manager_wf (init (Ctx := Ctx) (Frame := Frame) (World := World) stats).
Proof.
  split; [|split]; simpl; [apply map_Forall_empty| |lia].
  intros _. apply map_Forall_empty.
Qed.

Lemma manager_wf_add_event s e : manager_wf s → manager_wf (add_event s e).
Proof.
  intros (Hwf & Hcuts & Hscale). split; [|split].
  - rewrite add_event_events. apply map_Forall_insert_2; [|done]. split.
    + by destruct (default [] (events s !! time e)).
    + apply Forall_app. split; [|by repeat constructor].
      destruct (events s !! time e) as [old|] eqn:Hold; [|constructor].
      by destruct (Hwf _ _ Hold).
  - rewrite add_event_only_cuts, add_event_events.
    intros [Hflag Hkind%bool_decide_eq_true]%andb_prop.
    apply map_Forall_insert_2; [|by apply Hcuts].
    apply Forall_app. split; [|by repeat constructor].
    destruct (events s !! time e) as [old|] eqn:Hold; [|constructor].
    by apply (Hcuts Hflag _ _ Hold).
  - by destruct (add_event_fields s e) as (_ & _ & _ & _ & _ & -> & _).
Qed.

Lemma manager_wf_add_events s evs : manager_wf s → manager_wf (add_events s evs).
Proof.
  revert s. induction evs as [|e evs IH]; intros s Hwf; [done|].
  apply IH. by apply manager_wf_add_event.
Qed.

Lemma manager_wf_clear s : manager_wf s → manager_wf (clear s).
Proof.
  intros (_ & _ & Hscale). split; [|split]; simpl; [apply map_Forall_empty| |done].
  intros _. apply map_Forall_empty.
Qed.

Lemma manager_wf_transform {Float : Type} (fade_bias : option Float) s :
  manager_wf s → manager_wf (transform_events_to_cuts fade_bias s).2.
Proof.
  intros (Hwf & Hcuts & Hscale). destruct fade_bias as [b|]; [done|].
  split; [|split]; simpl; [| |done].
  - apply map_Forall_fmap. intros t evs Hevs. simpl.
    destruct (Hwf t evs Hevs) as [Hne Htime]. split.
    + by destruct evs.
    + apply Forall_fmap. eapply Forall_impl; [exact Htime|]. done.
  - intros _. apply map_Forall_fmap. intros t evs _. simpl.
    apply Forall_fmap, Forall_forall. done.
Qed.

Lemma int_of_number_ge_1 (value : number) :
  number_lt_1 value = false → 1 ≤ int_of_number value.
Proof.
  destruct value as [z|num den]; simpl; intros Hlt%bool_decide_eq_false; [lia|].
  apply Z.quot_le_lower_bound; lia.
Qed.

Lemma manager_wf_downscale_setter (value : number) s :
  manager_wf s → manager_wf (downscale_setter value s).2.
Proof.
  intros (Hwf & Hcuts & Hscale). unfold downscale_setter.
  destruct (number_lt_1 value) eqn:Hlt; [done|].
  split; [done|]. split; [done|]. simpl.
  apply int_of_number_ge_1 in Hlt. by destruct value.
Qed.

Lemma manager_wf_add_detector {Metrics : Type} new_stats_manager register_metrics
    detector (setup : DetectorSetup Metrics) s w :
  manager_wf s →
  manager_wf (add_detector new_stats_manager register_metrics detector setup (s, w)).1.
Proof.
  intros Hwf. unfold add_detector.
  destruct (negb _ && _); [destruct (new_stats_manager w)|]; done.
Qed.

Lemma manager_wf_detect_scenes tqdm subsample fuel video duration end_time frame_skip
    show_progress callback s w outcome s' w' :
  manager_wf s →
  detect_scenes tqdm subsample fuel video duration end_time frame_skip
                show_progress callback s w = Some (outcome, s', w') →
  manager_wf s'.
Proof.
  intros Hwf. apply (detect_scenes_preserves manager_wf); try done.
  intros s0 evs. apply manager_wf_add_events.
Qed.

End wf_facts.

Section manager_properties.
Context {Ctx Frame StatsManager World : Type}.
Implicit Types (s : SceneManager Ctx Frame StatsManager World) (w : World).
Implicit Types (m : gmap Z (list (DetectionEvent Ctx))).
Implicit Types (evs : list (DetectionEvent Ctx)) (a : assembly).

(** X1: a manager that is well formed (every ledger key holds a non-empty
    list of events carrying that key as their time, the cuts-only flag is set
    only if all events are cuts, the downscale factor is at least 1) stays so
    under [add_events], [clear], [transform_events_to_cuts], the [downscale]
    setter, [add_detector], [clear_detectors] and [detect_scenes], whatever
    they are given and however they end. *)
Theorem manager_wf_kept s :
  manager_wf s →
  (∀ evs, manager_wf (add_events s evs))
  ∧ manager_wf (clear s)
  ∧ (∀ (Float : Type) (fade_bias : option Float),
       manager_wf (transform_events_to_cuts fade_bias s).2)
  ∧ (∀ value, manager_wf (downscale_setter value s).2)
  ∧ manager_wf (clear_detectors s)
  ∧ (∀ (Metrics : Type) new_stats_manager register_metrics detector
       (setup : DetectorSetup Metrics) w,
       manager_wf (add_detector new_stats_manager register_metrics detector setup
                                (s, w)).1)
  ∧ (∀ tqdm subsample fuel video duration end_time frame_skip show_progress
       callback w outcome s' w',
       detect_scenes tqdm subsample fuel video duration end_time frame_skip
                     show_progress callback s w = Some (outcome, s', w') →
       manager_wf s').
Proof.
  intros Hwf. split; [|split; [|split; [|split; [|split; [|split]]]]].
  - intros evs. by apply manager_wf_add_events.
  - by apply manager_wf_clear.
  - intros Float fade_bias. by apply manager_wf_transform.
  - intros value. by apply manager_wf_downscale_setter.
  - exact Hwf.
  - intros. by apply manager_wf_add_detector.
  - intros. by eapply manager_wf_detect_scenes.
Qed.

(** X2: on a well-formed manager, [get_event_list] after [add_events] holds
    the events it held before together with the added ones, none lost and
    none twice; it is ascending in time, and the events of one timecode come
    in arrival order, the earlier ones first. *)
Theorem get_event_list_add_events_sorted s evs :
  manager_wf s →
  get_event_list (add_events s evs) ≡ₚ get_event_list s ++ evs
  ∧ StronglySorted (λ e1 e2, time e1 ≤ time e2) (get_event_list (add_events s evs))
  ∧ (∀ t, arrivals t (get_event_list (add_events s evs))
          = arrivals t (get_event_list s) ++ arrivals t evs).
Proof.
  intros Hwf.
  destruct (manager_wf_add_events s evs Hwf) as [Hwf' _]. destruct Hwf as [Hwf _].
  split; [apply get_event_list_add_events|].
  split; [by apply get_event_list_sorted|].
  intros t. rewrite !get_event_list_arrivals by done.
  apply add_events_lookup_default.
Qed.

(** ** Cuts-only runs *)

Lemma last_cons_default (k p : Z) (ks : list Z) :
  default p (last (k :: ks)) = default k (last ks).
Proof. rewrite last_cons. by destruct (last ks). Qed.

Lemma zip_shift (ks : list Z) (p x : Z) :
  zip (p :: ks) ks ++ [(default p (last ks), x)] = zip (p :: ks) (ks ++ [x]).
Proof.
  revert p. induction ks as [|k ks IH]; intros p; [done|].
  rewrite last_cons_default. simpl. f_equal. apply IH.
Qed.

Lemma foldl_on_timecode_cuts m (ks : list Z) (p : Z) (scenes : list (Z * Z)) :
  (∀ k, k ∈ ks → ∃ evs, m !! k = Some evs ∧ evs ≠ []
                        ∧ Forall (λ e, kind e = CUT) evs) →
  foldl (on_timecode m) (mkAssembly true p scenes) ks
  = mkAssembly true (default p (last ks)) (scenes ++ zip (p :: ks) ks).
Proof.
  revert p scenes. induction ks as [|k ks IH]; intros p scenes Hall.
  { simpl. by rewrite app_nil_r. }
  destruct (Hall k) as (evs & Hk & Hne & Hcuts); [by left|].
  cbn [foldl]. rewrite (on_timecode_cuts m _ k evs) by done. simpl.
  rewrite IH by (intros k' Hk'; apply Hall; by right).
  rewrite last_cons_default. by rewrite <- app_assoc.
Qed.

Lemma filter_all {A : Type} (P : A → Prop) `{!∀ x, Decision (P x)} (l : list A) :
  Forall P l → filter P l = l.
Proof.
  induction 1 as [|x l Hx _ IH]; [done|]. rewrite filter_cons_True by done.
  by rewrite IH.
Qed.

Lemma cut_timecodes_cuts_only s :
  manager_wf s → only_cuts s = true → cut_timecodes s = sorted_keys (events s).
Proof.
  intros (Hwf & Hcuts & _) Hflag. unfold cut_timecodes. apply filter_all.
  apply Forall_forall. intros t [evs Hevs]%elem_of_sorted_keys.
  rewrite Hevs. simpl.
  destruct (Hwf t evs Hevs) as [Hne _]. specialize (Hcuts Hflag t evs Hevs).
  destruct evs as [|e evs]; [done|]. apply Forall_cons in Hcuts as [He _].
  simpl. by rewrite bool_decide_eq_true_2.
Qed.

(** X3: in a well-formed manager with the cuts-only flag set and at least one
    event, the scene list is the cut list of [get_cut_list(minimum_spacing=1)]
    turned into back-to-back scenes: with these cuts c1 < ... < cn (every
    timecode of the ledger; the default spacing of 15 would leave some out),
    the scenes are (start, c1), (c1, c2), ..., (c(n-1), cn), followed by
    (cn, last + 1) when the end is included. *)
Theorem get_scene_list_cuts_only s start final :
  manager_wf s → only_cuts s = true → events s ≠ ∅ →
  start_pos s = Some start → last_pos s = Some final →
  get_scene_list true s
  = Ok (zip (start :: get_cut_list 1 s) (get_cut_list 1 s ++ [final + 1]))
  ∧ get_scene_list false s
    = Ok (zip (start :: get_cut_list 1 s) (get_cut_list 1 s)).
Proof.
  intros Hwf Hflag Hne Hstart Hfinal.
  rewrite get_cut_list_greedy, bool_decide_eq_false_2 by lia.
  rewrite cut_timecodes_cuts_only by done.
  assert (Hasm : assemble s start
                 = mkAssembly true (default start (last (sorted_keys (events s))))
                     (zip (start :: sorted_keys (events s)) (sorted_keys (events s)))).
  { unfold assemble. rewrite Hflag. apply foldl_on_timecode_cuts.
    intros k [evs Hevs]%elem_of_sorted_keys. exists evs.
    destruct Hwf as (Hwf & Hcuts & _).
    destruct (Hwf k evs Hevs) as [? _]. split; [done|]. split; [done|].
    by apply (Hcuts Hflag k evs). }
  unfold get_scene_list. rewrite !bool_decide_eq_false_2 by done.
  rewrite Hstart, Hfinal, Hasm. cbn [in_scene scene_list last_event_pos andb].
  by rewrite zip_shift.
Qed.

(** ** Where scenes begin and end *)

Lemma starts_inv_step m first ks t a :
  starts_inv first ks a → starts_inv first (ks ++ [t]) (on_timecode m a t).
Proof.
  intros [Hstarts Hlep0].
  assert (Hhere : t ∈ ks ++ [t]).
  { apply elem_of_app. right. by apply list_elem_of_singleton. }
  assert (Hweak : ∀ x : Z, x = first ∨ x ∈ ks → x = first ∨ x ∈ ks ++ [t]).
  { intros x [?|?]; [by left|right]. apply elem_of_app. by left. }
  assert (Hold : Forall (λ sc : Z * Z, sc.1 = first ∨ sc.1 ∈ ks ++ [t]) (scene_list a)).
  { eapply Forall_impl; [exact Hstarts|]. intros sc. apply Hweak. }
  destruct (on_timecode_spec m a t) as [[Hsl Hlep]|(Hlep & p & Hsl & Hp)];
    unfold starts_inv; rewrite Hsl.
  - split; [done|]. destruct Hlep as [->| ->]; [by apply Hweak|by right].
  - split; [|right; by rewrite Hlep].
    apply Forall_app. split; [done|]. constructor; [|constructor]. simpl.
    destruct Hp as [[-> _]|[-> _]]; [by apply Hweak|by right].
Qed.

Lemma assemble_starts s start :
  starts_inv start (sorted_keys (events s)) (assemble s start).
Proof.
  unfold assemble. apply (assemble_ind (starts_inv start)).
  - split; [constructor|by left].
  - intros ks t a _ _ Hinv. by apply starts_inv_step.
Qed.

Lemma StronglySorted_lt_NoDup (l : list Z) : StronglySorted Z.lt l → NoDup l.
Proof.
  induction 1 as [|x l _ IH Hx]; constructor; [|done].
  intros Hin. rewrite Forall_forall in Hx. specialize (Hx x Hin). lia.
Qed.

Lemma length_sorted_keys m : length (sorted_keys m) = size m.
Proof.
  rewrite (Permutation_length (sorted_keys_perm m)), length_fmap.
  apply length_map_to_list.
Qed.

(** X4: every scene of a returned list begins at the recorded start position
    or at a timecode of the ledger, and ends at a timecode of the ledger or,
    for the final scene of [always_include_end], one frame past the last
    position; the list has at most one scene per timecode of the ledger, plus
    the final one. *)
Theorem get_scene_list_boundaries s always_include_end scenes :
  get_scene_list always_include_end s = Ok scenes →
  Forall (λ sc : Z * Z,
            (start_pos s = Some sc.1 ∨ is_Some (events s !! sc.1))
            ∧ (is_Some (events s !! sc.2)
               ∨ (always_include_end = true ∧ last_pos s = Some (sc.2 - 1))))
         scenes
  ∧ (length scenes ≤ size (events s) + (if always_include_end then 1 else 0))%nat.
Proof.
  intros [[_ ->]|(Hne & start & Hstart & Hres)]%get_scene_list_Ok.
  { split; [constructor|simpl; lia]. }
  destruct (assemble_ordered s start) as (_ & Hsorted & Hends & _).
  destruct (assemble_starts s start) as [Hstarts Hlep].
  assert (Hfrom : ∀ x : Z, x = start ∨ x ∈ sorted_keys (events s) →
                           start_pos s = Some x ∨ is_Some (events s !! x)).
  { intros x [->|Hx]; [by left|right]. by apply elem_of_sorted_keys. }
  assert (Hloop : Forall (λ sc : Z * Z,
                    (start_pos s = Some sc.1 ∨ is_Some (events s !! sc.1))
                    ∧ (is_Some (events s !! sc.2)
                       ∨ (always_include_end = true ∧ last_pos s = Some (sc.2 - 1))))
                    (scene_list (assemble s start))).
  { apply Forall_forall. intros sc Hsc.
    rewrite Forall_forall in Hstarts. rewrite Forall_forall in Hends. split.
    - by apply Hfrom, Hstarts.
    - left. by apply elem_of_sorted_keys, Hends. }
  assert (Hlen : (length (scene_list (assemble s start)) ≤ size (events s))%nat).
  { rewrite <- length_sorted_keys, <- (length_fmap snd).
    apply submseteq_length, NoDup_submseteq.
    - by apply StronglySorted_lt_NoDup.
    - intros x (sc & -> & Hsc)%list_elem_of_fmap.
      rewrite Forall_forall in Hends. by apply Hends. }
  destruct Hres as [[-> _]|(final & Hfinal & Hin & ->)].
  - split; [done|]. lia.
  - apply andb_prop in Hin as [_ ->]. split.
    + apply Forall_app. split; [done|]. constructor; [|constructor]. simpl.
      split; [by apply Hfrom|]. right. split; [done|]. rewrite Hfinal. f_equal. lia.
    + rewrite length_app. simpl. lia.
Qed.

(** ** Cuts outside a scene *)

Lemma on_events_outside t evs a (added : bool) :
  in_scene a = false → Forall (λ e, kind e = CUT) evs →
  foldl (on_event t) (a, added) evs = (a, added).
Proof.
  intros Hout. induction 1 as [|e evs He _ IH]; [done|].
  simpl. by rewrite He, Hout.
Qed.

Lemma assemble_outside s start :
  only_cuts s = false →
  map_Forall (λ _ evs, Forall (λ e, kind e = CUT) evs) (events s) →
  assemble s start = mkAssembly false start [].
Proof.
  intros Hflag Hcuts. unfold assemble. rewrite Hflag.
  assert (Hall : ∀ k, k ∈ sorted_keys (events s) → is_Some (events s !! k))
    by (intros k; apply elem_of_sorted_keys).
  induction (sorted_keys (events s)) as [|t ks IH]; [done|].
  cbn [foldl]. unfold on_timecode at 2.
  destruct (Hall t) as [evs Hevs]; [by left|]. rewrite Hevs. simpl.
  rewrite on_events_outside by (done || by apply (Hcuts t)).
  apply IH. intros k Hk. apply Hall. by right.
Qed.

(** X5: [transform_events_to_cuts(None)] leaves the cuts-only flag as it is,
    so in a manager that ever took an event other than a cut, with a start
    position recorded, every transformed event is a cut outside of any scene
    and [get_scene_list] returns the empty list, whatever the ledger holds. *)
Theorem get_scene_list_after_transform {Float : Type} s always_include_end :
  only_cuts s = false → is_Some (start_pos s) →
  only_cuts (transform_events_to_cuts (@None Float) s).2 = false
  ∧ get_scene_list always_include_end (transform_events_to_cuts (@None Float) s).2
    = Ok [].
Proof.
  intros Hflag [start Hstart]. split; [done|].
  unfold get_scene_list. case_bool_decide; [done|].
  cbn [transform_events_to_cuts snd start_pos set_events]. rewrite Hstart.
  rewrite assemble_outside; [done|done|].
  simpl. apply map_Forall_fmap. intros t evs _. simpl.
  apply Forall_fmap, Forall_forall. done.
Qed.

(** ** After [transform_events_to_cuts] *)

Lemma sorted_keys_fmap m (f : list (DetectionEvent Ctx) → list (DetectionEvent Ctx)) :
  sorted_keys (f <$> m) = sorted_keys m.
Proof.
  unfold sorted_keys. rewrite map_to_list_fmap, <- list_fmap_compose.
  f_equal; try (apply list_fmap_ext; by intros i [k v] _).
Qed.

Lemma fmap_concat {A B : Type} (f : A → B) (ls : list (list A)) :
  f <$> concat ls = concat ((λ l : list A, f <$> l) <$> ls).
Proof.
  induction ls as [|l ls IH]; [done|]. csimpl. by rewrite fmap_app, IH.
Qed.

(** X6: on a well-formed manager, [transform_events_to_cuts(None)] done twice
    is the same as done once; after it every timecode of the ledger is a
    cut, so [get_cut_list(minimum_spacing=1)] (not the default spacing of 15,
    which filters) returns all of them in ascending order, and
    [get_event_list] returns the events it returned before, each turned into
    a cut. *)
Theorem transform_events_to_cuts_cut_list {Float : Type} s :
  manager_wf s →
  transform_events_to_cuts (@None Float) (transform_events_to_cuts (@None Float) s).2
  = transform_events_to_cuts (@None Float) s
  ∧ get_cut_list 1 (transform_events_to_cuts (@None Float) s).2
    = sorted_keys (events s)
  ∧ (∀ t, t ∈ get_cut_list 1 (transform_events_to_cuts (@None Float) s).2
          ↔ is_Some (events s !! t))
  ∧ get_event_list (transform_events_to_cuts (@None Float) s).2
    = (λ e, mkDetectionEvent CUT (time e) (context e)) <$> get_event_list s.
Proof.
  intros (Hwf & _ & _).
  assert (Hcut : get_cut_list 1 (transform_events_to_cuts (@None Float) s).2
                 = sorted_keys (events s)).
  { rewrite get_cut_list_greedy, bool_decide_eq_false_2 by lia.
    unfold cut_timecodes. simpl. rewrite sorted_keys_fmap. apply filter_all.
    apply Forall_forall. intros t [evs Hevs]%elem_of_sorted_keys.
    rewrite lookup_fmap, Hevs. simpl.
    destruct (Hwf t evs Hevs) as [Hne _]. by destruct evs. }
  split; [|split; [done|split]].
  - unfold transform_events_to_cuts. f_equal. simpl.
    apply SceneManager_eq; simpl; try done.
    rewrite <- map_fmap_compose. apply map_fmap_ext. intros t evs _. simpl.
    rewrite map_map. done.
  - intros t. rewrite Hcut. apply elem_of_sorted_keys.
  - rewrite !get_event_list_concat. simpl. rewrite sorted_keys_fmap.
    rewrite fmap_concat. f_equal.
    rewrite <- !list_fmap_compose. apply list_fmap_ext. intros i t _. simpl.
    rewrite lookup_fmap. by destruct (events s !! t).
Qed.

End manager_properties.

Section cut_list_properties.
Context {Ctx Frame StatsManager World : Type}.
Implicit Types (s : SceneManager Ctx Frame StatsManager World).

Lemma keep_after_sublist (minimum_spacing kept : Z) (cuts : list Z) :
  keep_after minimum_spacing kept cuts `sublist_of` cuts.
Proof.
  revert kept. induction cuts as [|c cuts IH]; intros kept; simpl; [done|].
  case_bool_decide; [by apply sublist_skip|by apply sublist_cons].
Qed.

Lemma keep_after_spaced (minimum_spacing kept : Z) (cuts : list Z) :
  ∀ (i : nat) (x y : Z),
    (kept :: keep_after minimum_spacing kept cuts) !! i = Some x →
    (kept :: keep_after minimum_spacing kept cuts) !! S i = Some y →
    minimum_spacing ≤ y - x.
Proof.
  revert kept. induction cuts as [|c cuts IH]; intros kept i x y; simpl.
  { by destruct i. }
  case_bool_decide as Hkeep.
  - destruct i as [|i]; simpl.
    + intros [= <-] [= <-]. done.
    + apply (IH c i x y).
  - apply (IH kept i x y).
Qed.

Lemma keep_after_dropped (minimum_spacing kept : Z) (cuts : list Z) (c : Z) :
  StronglySorted Z.lt (kept :: cuts) →
  c ∈ cuts → c ∉ keep_after minimum_spacing kept cuts →
  ∃ k, k ∈ kept :: keep_after minimum_spacing kept cuts
       ∧ k < c < k + minimum_spacing.
Proof.
  revert kept. induction cuts as [|c' cuts IH]; intros kept Hsorted Hin Hdropped.
  { by apply elem_of_nil in Hin. }
  apply StronglySorted_inv in Hsorted as [Hsorted Hkept].
  apply StronglySorted_inv in Hsorted as [Hcuts Hc'].
  apply Forall_cons in Hkept as [Hkc' Hkept].
  simpl in *. case_bool_decide as Hkeep.
  - apply elem_of_cons in Hin as [->|Hin]; [by destruct Hdropped; left|].
    destruct (IH c') as (k & Hk & Hlt); [by constructor|done| |].
    { intros ?. apply Hdropped. by right. }
    exists k. split; [by right|done].
  - apply elem_of_cons in Hin as [->|Hin].
    + exists kept. split; [by left|lia].
    + apply (IH kept); [by constructor|done|done].
Qed.

(** X7: whatever the minimum spacing, [get_cut_list] returns a subsequence of
    the timecodes that hold a cut and keeps the earliest of them; with a
    minimum spacing above 1, neighbouring cuts of the result are at least
    that far apart, and every cut left out lies less than the minimum spacing
    after a cut of the result. *)
Theorem get_cut_list_spaced (minimum_spacing : Z) s :
  get_cut_list minimum_spacing s `sublist_of` cut_timecodes s
  ∧ head (get_cut_list minimum_spacing s) = head (cut_timecodes s)
  ∧ (1 < minimum_spacing →
     (∀ (i : nat) (x y : Z),
        get_cut_list minimum_spacing s !! i = Some x →
        get_cut_list minimum_spacing s !! S i = Some y →
        minimum_spacing ≤ y - x)
     ∧ (∀ c, c ∈ cut_timecodes s → c ∉ get_cut_list minimum_spacing s →
             ∃ k, k ∈ get_cut_list minimum_spacing s
                  ∧ k < c < k + minimum_spacing)).
Proof.
  rewrite get_cut_list_greedy.
  pose proof (cut_timecodes_sorted s) as Hsorted.
  destruct (cut_timecodes s) as [|first cuts]; simpl.
  { case_bool_decide; repeat split; done. }
  case_bool_decide as Hms; simpl.
  - split; [apply sublist_skip, keep_after_sublist|]. split; [done|].
    intros _. split; [apply keep_after_spaced|].
    intros c Hc Hdropped.
    apply elem_of_cons in Hc as [->|Hc]; [by destruct Hdropped; left|].
    apply keep_after_dropped; [done|done|].
    intros ?. apply Hdropped. by right.
  - split; [done|]. split; [done|]. intros ?. lia.
Qed.

End cut_list_properties.

Section lifecycle_properties.
Context {Ctx Frame StatsManager World : Type}.
Implicit Types (s : SceneManager Ctx Frame StatsManager World) (w : World).
Implicit Types (evs : list (DetectionEvent Ctx)).

Lemma get_scene_list_no_start always_include_end s :
  events s ≠ ∅ → start_pos s = None →
  get_scene_list always_include_end s = Raise AssertionError.
Proof.
  intros Hne Hstart. unfold get_scene_list.
  rewrite bool_decide_eq_false_2 by done. by rewrite Hstart.
Qed.

(** X8: [clear] empties the scene list, the cut list and the event list and
    keeps the detectors, the cache and the last position, but forgets the
    start position: events added after it, before a new run, make
    [get_scene_list] fail its assertion, also when a run had been completed
    before the [clear]. *)
Theorem clear_forgets_run always_include_end (minimum_spacing : Z) s :
  get_scene_list always_include_end (clear s) = Ok []
  ∧ get_cut_list minimum_spacing (clear s) = []
  ∧ get_event_list (clear s) = []
  ∧ detectors (clear s) = detectors s
  ∧ stats_manager (clear s) = stats_manager s
  ∧ last_pos (clear s) = last_pos s
  ∧ (∀ evs, evs ≠ [] →
            get_scene_list always_include_end (add_events (clear s) evs)
            = Raise AssertionError).
Proof.
  assert (Hkeys : sorted_keys (events (clear s)) = []) by by apply sorted_keys_empty.
  split; [done|]. split.
  { unfold get_cut_list, cut_timecodes. rewrite Hkeys. simpl.
    by rewrite andb_false_r. }
  split.
  { unfold get_event_list. by rewrite Hkeys. }
  do 3 (split; [done|]).
  intros evs Hevs. apply get_scene_list_no_start; [by apply add_events_nonempty|].
  by destruct (add_events_fields (clear s) evs) as (_ & _ & -> & _).
Qed.

(** X9: [add_detector] appends the detector and leaves the ledger and the
    positions alone; an attached cache stays, and without one a cache is
    created exactly when the detector requires it; from then on
    [detect_scenes] with [frame_skip > 0] raises [ValueError] without touching
    the manager or the world; [clear_detectors] brings the number of
    detectors back to 0. *)
Theorem add_detector_spec {Metrics : Type} new_stats_manager register_metrics
    detector (setup : DetectorSetup Metrics) s w :
  let s' := (add_detector new_stats_manager register_metrics detector setup (s, w)).1 in
  detectors s' = detectors s ++ [detector]
  ∧ get_num_detectors s' = S (get_num_detectors s)
  ∧ get_num_detectors (clear_detectors s') = 0%nat
  ∧ events s' = events s ∧ start_pos s' = start_pos s ∧ last_pos s' = last_pos s
  ∧ only_cuts s' = only_cuts s
  ∧ stats_manager s'
    = match stats_manager s with
      | Some stats => Some stats
      | None => if stats_manager_required setup w
                then Some (new_stats_manager w).1 else None
      end
  ∧ (is_not_none (stats_manager s) || stats_manager_required setup w = true →
     ∀ tqdm subsample fuel video duration end_time frame_skip show_progress
       callback w',
       frame_skip > 0 →
       detect_scenes tqdm subsample fuel video duration end_time frame_skip
                     show_progress callback s' w'
       = Some (Raise ValueError, s', w')).
Proof.
  unfold add_detector.
  destruct (stats_manager s) as [stats|] eqn:Hstats; simpl.
  - rewrite Hstats. repeat split; try done.
    + unfold get_num_detectors. simpl. rewrite length_app. simpl. lia.
    + intros _ ? ? ? ? ? ? ? ? ? ? Hskip. unfold detect_scenes. simpl.
      by rewrite Hstats, bool_decide_eq_true_2.
  - destruct (stats_manager_required setup w) eqn:Hreq; simpl.
    + destruct (new_stats_manager w) as [stats w1] eqn:Hnew. simpl.
      repeat split; try done.
      * unfold get_num_detectors. simpl. rewrite length_app. simpl. lia.
      * intros _ ? ? ? ? ? ? ? ? ? ? Hskip. unfold detect_scenes. simpl.
        by rewrite bool_decide_eq_true_2.
    + rewrite Hstats. repeat split; try done.
      unfold get_num_detectors. simpl. rewrite length_app. simpl. lia.
Qed.

(** ** What a detection run leaves *)

Lemma extends_refl s : extends s s.
Proof. by repeat split. Qed.

Lemma extends_add_events s x evs : extends s x → extends s (add_events x evs).
Proof.
  intros (Hd & Hsm & Hds & Hauto & Hstart & Hpre & Hflag).
  destruct (add_events_fields x evs) as (Hd' & Hsm' & Hstart' & _ & _ & Hds' & Hauto').
  split; [congruence|]. split; [congruence|]. split; [congruence|].
  split; [congruence|]. split; [|split].
  - intros p Hp. rewrite Hstart'. by apply Hstart.
  - intros t. rewrite add_events_lookup_default.
    by apply prefix_app_r.
  - rewrite add_events_only_cuts. intros [? _]%andb_prop. by apply Hflag.
Qed.

Lemma extends_set_start_pos s x p :
  extends s x → start_pos x = None → extends s (set_start_pos x (Some p)).
Proof.
  intros (Hd & Hsm & Hds & Hauto & Hstart & Hpre & Hflag) Hnone.
  repeat split; try done. intros p0 Hp0. apply Hstart in Hp0. congruence.
Qed.

(** X10: however [detect_scenes] ends, it keeps the detectors, the cache and
    the downscale settings, keeps a start position recorded before, keeps
    the events of every timecode in front of the new ones and never sets the
    cuts-only flag again.  When it returns, it returns the distance the
    frame number advanced, both positions are recorded, the last one being
    the position of the source, and [get_scene_list] then returns a list. *)
Theorem detect_scenes_result tqdm subsample fuel video duration end_time frame_skip
    show_progress callback s w outcome s' w' :
  detect_scenes tqdm subsample fuel video duration end_time frame_skip
                show_progress callback s w = Some (outcome, s', w') →
  extends s s'
  ∧ (∀ n, outcome = Ok n →
          n = video_frame_number video w' - video_frame_number video w
          ∧ is_Some (start_pos s')
          ∧ last_pos s' = Some (video_position video w')
          ∧ ∀ always_include_end,
              ∃ scenes, get_scene_list always_include_end s' = Ok scenes).
Proof.
  intros Hrun. split.
  { revert Hrun. apply (detect_scenes_preserves (extends s)).
    - intros x evs. apply extends_add_events.
    - intros x p. apply extends_set_start_pos.
    - intros x p (? & ? & ? & ? & ? & ? & ?). by repeat split.
    - intros x p (? & ? & ? & ? & ? & ? & ?). by repeat split.
    - apply extends_refl. }
  intros n ->. revert Hrun. unfold detect_scenes.
  repeat (match goal with
          | |- context [if ?b then Some (Raise ValueError, s, w) else _] =>
              destruct b; [done|]
          end).
  cbv zeta. set (s0 := set_base_timecode s _). clearbody s0.
  destruct (if auto_downscale s0 then _ else _) as [factor|e]; [|done].
  destruct (frame_loop _ _ _ _ _ _ _ _ _ _ _) as [[s1 w1]|]; [|done].
  set (start := match start_pos s1 with None => _ | Some p => p end).
  pose proof (_post_process_preserves (λ x, is_Some (start_pos x)) start
                (video_position video w1) (set_start_pos s1 (Some start)) w1) as Hpost.
  destruct (_post_process _ _ _) as [s3 w3]. simpl in Hpost.
  intros [= <- <- <-]. simpl.
  assert (is_Some (start_pos s3)) as [p Hp].
  { apply Hpost; [|by eexists]. intros x evs.
    by destruct (add_events_fields x evs) as (_ & _ & -> & _). }
  split; [done|]. split; [by exists p|]. split; [done|].
  intros always_include_end. by eapply get_scene_list_defined.
Qed.

(** X11: [compute_downscale_factor] fails its assertion exactly on a width
    below 1; otherwise it returns a factor of at least 1, which is 1 for a
    frame narrower than the effective width, and for a wider frame leaves,
    after division, at least the effective width and less than twice it. *)
Theorem compute_downscale_factor_range (frame_width effective_width : Z) :
  (frame_width < 1 ∨ effective_width < 1 →
   compute_downscale_factor frame_width effective_width = Raise AssertionError)
  ∧ (1 ≤ frame_width → 1 ≤ effective_width →
     ∃ factor,
       compute_downscale_factor frame_width effective_width = Ok factor
       ∧ 1 ≤ factor
       ∧ (frame_width < effective_width → factor = 1)
       ∧ (effective_width ≤ frame_width →
          effective_width ≤ frame_width `div` factor < 2 * effective_width)).
Proof.
  split.
  - intros Hbad. unfold compute_downscale_factor. by rewrite bool_decide_eq_true_2.
  - intros Hw He. eexists. split; [by apply compute_downscale_factor_value|].
    split; [lia|]. split.
    + intros Hlt. rewrite Z.div_small by lia. lia.
    + intros Hle. apply (compute_downscale_factor_width frame_width effective_width);
        [lia|]. by apply compute_downscale_factor_value.
Qed.

End lifecycle_properties.

(** * The frames of [save_images] *)

Section save_images_facts.

Lemma collect_indexed_Returns {A B : Type} (f : nat → A → outcome B)
    (Q : A → B → Prop) (l : list A) (j : nat) :
  (∀ i x, x ∈ l → ∃ y, f i x = Returns y ∧ Q x y) →
  ∃ ys, collect_indexed f j l = Returns ys ∧ Forall2 Q l ys.
Proof.
  revert j. induction l as [|x l IH]; intros j Hall; simpl.
  { exists []. by split. }
  destruct (Hall j x) as (y & -> & Hy); [by left|].
  destruct (IH (S j)) as (ys & -> & Hys).
  { intros i x' Hx'. apply Hall. by right. }
  exists (y :: ys). split; [done|]. by constructor.
Qed.

Lemma collect_indexed_Raises {A B : Type} (f : nat → A → outcome B) (e : error)
    (l : list A) (j : nat) :
  (∀ i x, x ∈ l → (∃ y, f i x = Returns y) ∨ f i x = Raises e) →
  Exists (λ x, ∀ i, f i x = Raises e) l →
  collect_indexed f j l = Raises e.
Proof.
  revert j. induction l as [|x l IH]; intros j Hall Hex; simpl.
  { by apply Exists_nil in Hex. }
  destruct (Hall j x) as [[y Hy]| ->]; [by left| |done].
  rewrite Hy. apply Exists_cons in Hex as [Hx|Hex].
  { rewrite Hx in Hy. done. }
  rewrite IH; [done| |done]. intros i x' Hx'. apply Hall. by right.
Qed.

Lemma frames_of_nonempty (scene : Z * Z) :
  scene.1 < scene.2 →
  head (frames_of scene) = Some scene.1
  ∧ last (frames_of scene) = Some (scene.2 - 1)
  ∧ Z.of_nat (length (frames_of scene)) = scene.2 - scene.1.
Proof.
  intros Hlt. unfold frames_of. split; [|split].
  - rewrite seqZ_cons by lia. done.
  - rewrite last_lookup, length_seqZ.
    apply lookup_seqZ. split; lia.
  - rewrite length_seqZ. lia.
Qed.

Lemma frames_of_empty (scene : Z * Z) : scene.2 ≤ scene.1 → frames_of scene = [].
Proof. intros Hle. unfold frames_of. apply seqZ_nil. lia. Qed.

Lemma pad_frames_Returns (num_images : Z) (scene : Z * Z) :
  scene.1 < scene.2 →
  ∃ r, pad_frames num_images (frames_of scene) = Returns r
       ∧ num_images ≤ Z.of_nat (length r)
       ∧ Forall (λ f, scene.1 ≤ f < scene.2) r
       ∧ (num_images = 1 → r = frames_of scene).
Proof.
  intros Hlt. destruct (frames_of_nonempty scene Hlt) as (Hhead & Hlast & Hlen).
  unfold pad_frames. rewrite Hhead, Hlast.
  assert (Hin : Forall (λ f, scene.1 ≤ f < scene.2) (frames_of scene)).
  { apply Forall_seqZ. intros f. lia. }
  case_bool_decide as Hfits.
  - eexists. split; [done|]. split; [lia|]. done.
  - eexists. split; [done|]. split; [|split].
    + rewrite length_app, length_replicate. lia.
    + apply Forall_app. split; [done|]. apply Forall_replicate. lia.
    + intros ->. lia.
Qed.

Lemma reshape_lengths {A : Type} (szs : list nat) (l : list A) :
  (sum_list szs ≤ length l)%nat →
  Forall2 (λ a sz, length a = sz) (reshape szs l) szs.
Proof.
  revert l. induction szs as [|sz szs IH]; intros l Hsum; simpl in *; constructor.
  - apply length_take_le. lia.
  - apply IH. rewrite length_drop. lia.
Qed.

Lemma concat_reshape {A : Type} (szs : list nat) (l : list A) :
  sum_list szs = length l → concat (reshape szs l) = l.
Proof.
  revert l. induction szs as [|sz szs IH]; intros l Hsum; simpl in *.
  { by destruct l. }
  rewrite IH by (rewrite length_drop; lia). apply take_drop.
Qed.

Lemma array_split_parts {A : Type} (ary : list A) (sections : nat) :
  (1 ≤ sections ≤ length ary)%nat →
  length (array_split ary sections) = sections
  ∧ Forall (λ a, a ≠ [] ∧ ∀ x, x ∈ a → x ∈ ary) (array_split ary sections)
  ∧ concat (array_split ary sections) = ary.
Proof.
  intros [Hpos Hle]. unfold array_split.
  set (each := (length ary `div` sections)%nat).
  set (extras := (length ary `mod` sections)%nat).
  assert (Hextras : (extras < sections)%nat) by (apply Nat.mod_upper_bound; lia).
  assert (Heach : (1 ≤ each)%nat) by (apply Nat.div_le_lower_bound; lia).
  assert (Hsum : sum_list (replicate extras (S each) ++ replicate (sections - extras) each)
                 = length ary).
  { rewrite sum_list_with_app, !sum_list_replicate.
    pose proof (Nat.div_mod_eq (length ary) sections) as Hdm.
    fold each extras in Hdm. nia. }
  split; [|split].
  - rewrite length_reshape, length_app, !length_replicate. lia.
  - pose proof (reshape_lengths _ ary (Nat.eq_le_incl _ _ Hsum)) as Hlens.
    assert (Hin : Forall (Forall (λ x, x ∈ ary))
                    (reshape (replicate extras (S each)
                              ++ replicate (sections - extras) each) ary)).
    { apply Forall_reshape, Forall_forall. done. }
    apply Forall_forall. intros a Ha. split.
    + apply list_elem_of_lookup in Ha as [i Hi].
      destruct (Forall2_lookup_l _ _ _ _ _ Hlens Hi) as (sz & Hsz & Hlen).
      apply list_elem_of_lookup_2 in Hsz.
      assert (1 ≤ sz)%nat.
      { apply elem_of_app in Hsz as [Hsz|Hsz];
          apply elem_of_replicate_inv in Hsz; lia. }
      intros ->. simpl in Hlen. lia.
    + rewrite Forall_forall in Hin. specialize (Hin a Ha).
      rewrite Forall_forall in Hin. done.
  - by apply concat_reshape.
Qed.

Lemma pick_frame_inside (num_images frame_margin : Z) (j : nat) (a : list Z) :
  0 ≤ frame_margin → a ≠ [] →
  ∃ f, pick_frame num_images frame_margin j a = Returns f
       ∧ ∀ lo hi, Forall (λ x, lo ≤ x < hi) a → lo ≤ f < hi.
Proof.
  intros Hmargin Hne.
  assert (is_Some (head a)) as [first Hfirst] by by apply head_is_Some.
  assert (is_Some (last a)) as [final Hfinal].
  { rewrite last_lookup. apply lookup_lt_is_Some. destruct a; [done|simpl; lia]. }
  assert (Hends : ∀ lo hi, Forall (λ x, lo ≤ x < hi) a →
                           lo ≤ first < hi ∧ lo ≤ final < hi).
  { intros lo hi Hall. rewrite Forall_forall in Hall. split; apply Hall.
    - by apply head_Some_elem_of.
    - rewrite last_lookup in Hfinal. by eapply list_elem_of_lookup_2. }
  unfold pick_frame. rewrite Hfirst, Hfinal.
  destruct (bool_decide (0 < Z.of_nat j < num_images - 1) || bool_decide (num_images = 1)).
  - assert (is_Some (a !! (length a `div` 2)%nat)) as [f Hf].
    { apply lookup_lt_is_Some. apply Nat.div_lt; [|lia].
      destruct a; [done|simpl; lia]. }
    rewrite Hf. exists f. split; [done|]. intros lo hi Hall.
    by apply (Forall_lookup_1 _ _ _ _ Hall Hf).
  - case_bool_decide; eexists; (split; [done|]); intros lo hi Hall;
      destruct (Hends lo hi Hall); lia.
Qed.

Lemma Forall2_compose {A B C : Type} (R1 : A → B → Prop) (R2 : B → C → Prop)
    (R : A → C → Prop) (l : list A) (k : list B) (m : list C) :
  (∀ x y z, R1 x y → R2 y z → R x z) →
  Forall2 R1 l k → Forall2 R2 k m → Forall2 R l m.
Proof.
  intros Hcomp H1. revert m. induction H1 as [|x y l k Hxy _ IH]; intros m H2.
  - apply Forall2_nil_inv_l in H2 as ->. constructor.
  - apply Forall2_cons_inv_l in H2 as (z & m' & Hyz & Hm' & ->).
    constructor; [by eapply Hcomp|by apply IH].
Qed.

Lemma seqZ_sorted (m n : Z) : StronglySorted Z.le (seqZ m n).
Proof.
  destruct (decide (n ≤ 0)) as [Hn|Hn]; [rewrite seqZ_nil by done; constructor|].
  rewrite <- (Z2Nat.id n) by lia. generalize (Z.to_nat n). clear Hn n. intros n.
  revert m. induction n as [|n IH]; intros m; [constructor|].
  rewrite seqZ_cons by lia. constructor.
  - replace (Z.pred (Z.of_nat (S n))) with (Z.of_nat n) by lia. apply IH.
  - apply Forall_seqZ. intros. lia.
Qed.

Lemma sorted_last_max (l : list Z) (top : Z) :
  StronglySorted Z.le l → last l = Some top → Forall (λ x, x ≤ top) l.
Proof.
  induction 1 as [|x l Hl IH Hx]; intros Hlast; [constructor|].
  rewrite last_cons in Hlast. destruct (last l) as [top'|] eqn:Hl'.
  - injection Hlast as ->. specialize (IH eq_refl). constructor; [|done].
    assert (top ∈ l) as Hin.
    { rewrite last_lookup in Hl'. by eapply list_elem_of_lookup_2. }
    rewrite Forall_forall in Hx. by apply Hx.
  - injection Hlast as ->. apply last_None in Hl' as ->. by repeat constructor.
Qed.

Lemma pad_frames_sorted (num_images : Z) (scene : Z * Z) r :
  pad_frames num_images (frames_of scene) = Returns r → StronglySorted Z.le r.
Proof.
  unfold pad_frames.
  destruct (last (frames_of scene)) as [final|] eqn:Hlast; [|done].
  destruct (head (frames_of scene)) as [first|]; [|done].
  pose proof (seqZ_sorted scene.1 (scene.2 - scene.1)) as Hsorted.
  fold (frames_of scene) in Hsorted.
  case_bool_decide; intros [= <-]; [done|].
  apply StronglySorted_app. split; [|split; [done|]].
  - intros x1 x2 Hx1 ->%elem_of_replicate_inv.
    pose proof (sorted_last_max _ _ Hsorted Hlast) as Hmax.
    rewrite Forall_forall in Hmax. by apply Hmax.
  - generalize (Z.to_nat (num_images - Z.of_nat (length (frames_of scene)))).
    intros k. induction k as [|k IH]; simpl; constructor; [done|].
    apply Forall_replicate. lia.
Qed.

(** Frames taken from the parts of a sorted range come out sorted. *)
Lemma picks_sorted (chunks : list (list Z)) (fs : list Z) (lo : Z) :
  Forall (λ a, a ≠ []) chunks →
  Forall2 (λ a f, ∀ lo hi, Forall (λ x, lo ≤ x < hi) a → lo ≤ f < hi) chunks fs →
  StronglySorted Z.le (concat chunks) → Forall (λ x, lo ≤ x) (concat chunks) →
  StronglySorted Z.le fs ∧ Forall (λ f, lo ≤ f) fs.
Proof.
  intros Hne Hpicks. revert lo.
  induction Hpicks as [|a f chunks fs Hf _ IH]; intros lo Hsorted Hlo.
  { split; constructor. }
  apply Forall_cons in Hne as [Ha Hne]. simpl in Hsorted, Hlo.
  apply StronglySorted_app in Hsorted as (Hcross & Hsa & Hsrest).
  apply Forall_app in Hlo as [Hloa Hlorest].
  assert (is_Some (last a)) as [top Htop].
  { rewrite last_lookup. apply lookup_lt_is_Some. destruct a; [done|simpl; lia]. }
  assert (Htopin : top ∈ a).
  { rewrite last_lookup in Htop. by eapply list_elem_of_lookup_2. }
  assert (Hbound : Forall (λ x, lo ≤ x < top + 1) a).
  { pose proof (sorted_last_max _ _ Hsa Htop) as Hmax.
    apply Forall_forall. intros x Hx.
    rewrite Forall_forall in Hloa. rewrite Forall_forall in Hmax.
    specialize (Hloa x Hx). specialize (Hmax x Hx). lia. }
  destruct (IH Hne top Hsrest) as [Hsfs Hfs].
  { apply Forall_forall. intros y Hy. by apply Hcross. }
  specialize (Hf lo (top + 1) Hbound). split.
  - constructor; [done|]. eapply Forall_impl; [exact Hfs|]. simpl. intros. lia.
  - constructor; [lia|]. eapply Forall_impl; [exact Hfs|]. simpl.
    rewrite Forall_forall in Hloa. specialize (Hloa top Htopin). intros. lia.
Qed.

Lemma pick_frames_of_range (num_images frame_margin : Z) (r : list Z) :
  1 ≤ num_images → 0 ≤ frame_margin → num_images ≤ Z.of_nat (length r) →
  StronglySorted Z.le r →
  ∃ fs, collect_indexed (pick_frame num_images frame_margin) 0
          (array_split r (Z.to_nat num_images)) = Returns fs
        ∧ Z.of_nat (length fs) = num_images
        ∧ (∀ lo hi, Forall (λ x, lo ≤ x < hi) r → Forall (λ f, lo ≤ f < hi) fs)
        ∧ StronglySorted Z.le fs.
Proof.
  intros Hn Hmargin Hlen Hsorted.
  destruct (array_split_parts r (Z.to_nat num_images)) as (Hparts & Hchunks & Hconcat);
    [lia|].
  rewrite Forall_forall in Hchunks.
  destruct (collect_indexed_Returns (pick_frame num_images frame_margin)
              (λ a f, ∀ lo hi, Forall (λ x, lo ≤ x < hi) a → lo ≤ f < hi)
              (array_split r (Z.to_nat num_images)) 0) as (fs & Hfs & Hpicks).
  { intros i a Ha. apply pick_frame_inside; [done|]. by apply Hchunks. }
  exists fs. split; [done|]. split; [|split].
  - rewrite <- (Forall2_length _ _ _ Hpicks), Hparts. lia.
  - intros lo hi Hr. apply Forall_forall. intros f Hf.
    apply list_elem_of_lookup in Hf as [i Hi].
    destruct (Forall2_lookup_r _ _ _ _ _ Hpicks Hi) as (a & Ha & Hpick).
    apply Hpick. apply list_elem_of_lookup_2 in Ha.
    apply Forall_forall. intros x Hx. rewrite Forall_forall in Hr.
    by apply Hr, (Hchunks a Ha).
  - assert (∃ x0, Forall (λ x, x0 ≤ x) r) as [x0 Hx0].
    { destruct Hsorted as [|x0 r0 _ Hx0]; [exists 0; constructor|].
      exists x0. constructor; [lia|done]. }
    apply (picks_sorted (array_split r (Z.to_nat num_images)) fs x0); [|done| |].
    + apply Forall_forall. intros a Ha. by apply Hchunks.
    + by rewrite Hconcat.
    + by rewrite Hconcat.
Qed.

Lemma array_split_one {A : Type} (ary : list A) : array_split ary 1 = [ary].
Proof.
  unfold array_split. rewrite Nat.div_1_r, Nat.mod_1_r. simpl.
  by rewrite take_ge.
Qed.

Lemma pick_middle (frame_margin : Z) (scene : Z * Z) :
  scene.1 < scene.2 →
  collect_indexed (pick_frame 1 frame_margin) 0 (array_split (frames_of scene) 1)
  = Returns [scene.1 + (scene.2 - scene.1) `div` 2].
Proof.
  intros Hlt. rewrite array_split_one. simpl. unfold pick_frame.
  rewrite orb_true_r.
  destruct (frames_of_nonempty scene Hlt) as (_ & _ & Hlen).
  assert (frames_of scene !! (length (frames_of scene) `div` 2)%nat
          = Some (scene.1 + (scene.2 - scene.1) `div` 2)) as ->; [|done].
  unfold frames_of in *. apply lookup_seqZ. rewrite Nat2Z.inj_div, Hlen.
  split; [done|]. apply Z.div_lt; lia.
Qed.

(** X12: with at least one image per scene and a margin that is not negative,
    [save_images] takes from every scene that has a frame exactly
    [num_images] frames, all of them inside the scene, in ascending order;
    with one image per scene it is the frame in the middle. *)
Theorem save_images_timecodes_inside (scene_list : list (Z * Z))
    (num_images frame_margin : Z) :
  1 ≤ num_images → 0 ≤ frame_margin →
  Forall (λ scene, scene.1 < scene.2) scene_list →
  ∃ timecodes,
    save_images_timecodes scene_list num_images frame_margin = Returns timecodes
    ∧ Forall2 (λ scene frames,
                 Z.of_nat (length frames) = num_images
                 ∧ Forall (λ f, scene.1 ≤ f < scene.2) frames
                 ∧ StronglySorted Z.le frames
                 ∧ (num_images = 1 →
                    frames = [scene.1 + (scene.2 - scene.1) `div` 2]))
              scene_list timecodes.
Proof.
  intros Hn Hmargin Hscenes. unfold save_images_timecodes.
  destruct scene_list as [|scene0 scenes0] eqn:Hlist; [by exists []; split|].
  rewrite <- Hlist in *. clear Hlist scene0 scenes0.
  rewrite !bool_decide_eq_false_2 by lia. simpl.
  rewrite Forall_forall in Hscenes.
  destruct (collect_indexed_Returns
              (λ _ scene, pad_frames num_images (frames_of scene))
              (λ scene r, scene.1 < scene.2
                          ∧ pad_frames num_images (frames_of scene) = Returns r)
              scene_list 0) as (ranges & Hranges & Hpadded).
  { intros _ scene Hscene. specialize (Hscenes scene Hscene).
    destruct (pad_frames_Returns num_images scene Hscenes) as (r & Hr & _).
    by exists r. }
  unfold collect. rewrite Hranges.
  destruct (collect_indexed_Returns
              (λ _ r, collect_indexed (pick_frame num_images frame_margin) 0
                        (array_split r (Z.to_nat num_images)))
              (λ r fs, (num_images ≤ Z.of_nat (length r) ∧ StronglySorted Z.le r) ∧
                       collect_indexed (pick_frame num_images frame_margin) 0
                         (array_split r (Z.to_nat num_images)) = Returns fs)
              ranges 0) as (timecodes & Htimecodes & Hpicked).
  { intros _ r Hr. apply list_elem_of_lookup in Hr as [i Hi].
    destruct (Forall2_lookup_r _ _ _ _ _ Hpadded Hi) as (scene & _ & Hlt & Hpad).
    destruct (pad_frames_Returns num_images scene Hlt) as (r' & Hr' & Hlen & _).
    assert (r' = r) as -> by congruence.
    pose proof (pad_frames_sorted _ _ _ Hpad) as Hsorted.
    destruct (pick_frames_of_range num_images frame_margin r) as (fs & Hfs & _);
      try done.
    by exists fs. }
  exists timecodes. split; [done|].
  eapply Forall2_compose; [|exact Hpadded|exact Hpicked].
  intros scene r fs [Hlt Hpad] [[Hlen Hsorted] Hfs]. simpl in *.
  destruct (pad_frames_Returns num_images scene Hlt) as (r' & Hr' & _ & Hin & Hone).
  assert (r' = r) as -> by congruence.
  destruct (pick_frames_of_range num_images frame_margin r)
    as (fs' & Hfs' & Hcount & Hinside & Hasc); try done.
  assert (fs' = fs) as -> by congruence.
  split; [done|]. split; [by apply Hinside|]. split; [done|].
  intros ->. rewrite (Hone eq_refl) in Hfs. change (Z.to_nat 1) with 1%nat in Hfs.
  rewrite pick_middle in Hfs by done. congruence.
Qed.

(** X13: [save_images] returns at once when there is no scene, also with
    arguments it would reject; with scenes it raises [ValueError] for fewer
    than one image or a negative margin; and with valid arguments (the image
    extension being a known one) a scene without a frame (its end not after
    its start) makes it raise [IndexError] while the frames are chosen,
    before any image is written. *)
Theorem save_images_timecodes_raises (scene_list : list (Z * Z))
    (num_images frame_margin : Z) :
  save_images_timecodes [] num_images frame_margin = Returns []
  ∧ (scene_list ≠ [] → num_images ≤ 0 ∨ frame_margin < 0 →
     save_images_timecodes scene_list num_images frame_margin
     = Raises (Builtin ValueError))
  ∧ (1 ≤ num_images → 0 ≤ frame_margin →
     Exists (λ scene, scene.2 ≤ scene.1) scene_list →
     save_images_timecodes scene_list num_images frame_margin = Raises IndexError).
Proof.
  split; [done|]. split.
  - intros Hne Hbad. destruct scene_list; [done|]. simpl.
    destruct Hbad; [rewrite bool_decide_eq_true_2 by done; done|].
    rewrite (bool_decide_eq_true_2 (frame_margin < 0)) by done.
    by rewrite orb_true_r.
  - intros Hn Hmargin Hex. unfold save_images_timecodes.
    destruct scene_list as [|scene0 scenes0] eqn:Hlist; [by apply Exists_nil in Hex|].
    rewrite <- Hlist in *. clear Hlist scene0 scenes0.
    rewrite !bool_decide_eq_false_2 by lia. simpl.
    unfold collect. rewrite (collect_indexed_Raises _ IndexError); [done| |].
    + intros _ scene _. destruct (decide (scene.1 < scene.2)) as [Hlt|Hge].
      * left. destruct (pad_frames_Returns num_images scene Hlt) as (r & Hr & _).
        by exists r.
      * right. rewrite frames_of_empty by lia. done.
    + eapply Exists_impl; [exact Hex|]. simpl. intros scene Hle _.
      rewrite frames_of_empty by lia. done.
Qed.

End save_images_facts.

(** * The command line and the writers *)

Section split_video_facts.

Lemma rfind_absent (c : ascii) (s : list ascii) : c ∉ s → rfind c s = -1.
Proof.
  induction s as [|x s IH]; intros Hnotin; simpl; [done|].
  apply not_elem_of_cons in Hnotin as [Hne Hnotin]. rewrite IH by done.
  simpl. by rewrite bool_decide_eq_false_2.
Qed.

Lemma rfind_last (c : ascii) (s rest : list ascii) :
  c ∉ rest → rfind c (s ++ c :: rest) = Z.of_nat (length s).
Proof.
  intros Hnotin. induction s as [|x s IH]; simpl.
  - rewrite rfind_absent by done. simpl. by rewrite bool_decide_eq_true_2.
  - rewrite IH. rewrite bool_decide_eq_true_2 by lia. lia.
Qed.

Lemma extension_length_appended (s : list ascii) (c1 c2 c3 : ascii) :
  "."%char ∉ [c1; c2; c3] →
  extension_length (s ++ "."%char :: [c1; c2; c3]) = 3.
Proof.
  intros Hnotin. unfold extension_length. rewrite rfind_last by done.
  rewrite bool_decide_eq_false_2 by lia. rewrite length_app. simpl. lia.
Qed.

Lemma no_dot_mkv : "."%char ∉ ["m"; "k"; "v"]%char.
Proof. intros Hin. repeat (apply elem_of_cons in Hin as [?|Hin]; [done|]). by apply elem_of_nil in Hin. Qed.

Lemma no_dot_mp4 : "."%char ∉ ["m"; "p"; "4"]%char.
Proof. intros Hin. repeat (apply elem_of_cons in Hin as [?|Hin]; [done|]). by apply elem_of_nil in Hin. Qed.

Lemma extension_length_mkv (s : list ascii) :
  lit ".mkv" `suffix_of` s → extension_length s = 3.
Proof. intros [k ->]. apply (extension_length_appended k), no_dot_mkv. Qed.

(** X16: the file name [_split_video] settles on is the name format itself
    or the name format with [.mkv] or [.mp4] appended; it always has two to
    four characters after its last dot, with mkvmerge it ends in [.mkv], and
    settling again on the result changes nothing. *)
Theorem split_file_name_extension (split_mkvmerge : bool) (split_name_format : list ascii) :
  let name := split_file_name split_mkvmerge split_name_format in
  (name = split_name_format ∨ name = split_name_format ++ lit ".mkv"
   ∨ name = split_name_format ++ lit ".mp4")
  ∧ 2 ≤ extension_length name ≤ 4
  ∧ (split_mkvmerge = true → lit ".mkv" `suffix_of` name)
  ∧ split_file_name split_mkvmerge name = name.
Proof.
  unfold split_file_name.
  destruct split_mkvmerge; simpl.
  - case_bool_decide as Hmkv; simpl.
    + pose proof (extension_length_mkv _ Hmkv) as Hlen. rewrite Hlen.
      rewrite bool_decide_eq_true_2 by lia. simpl.
      split; [by left|]. split; [lia|]. split; [done|].
      rewrite bool_decide_eq_true_2 by done. simpl. rewrite Hlen.
      by rewrite bool_decide_eq_true_2 by lia.
    + assert (Hsuffix : lit ".mkv" `suffix_of` split_name_format ++ lit ".mkv")
        by by exists split_name_format.
      pose proof (extension_length_mkv _ Hsuffix) as Hlen.
      simpl in Hlen, Hsuffix.
      split; [right; by left|]. split; [lia|]. split; [done|].
      rewrite bool_decide_eq_true_2 by done. simpl. rewrite Hlen.
      by rewrite bool_decide_eq_true_2 by lia.
  - case_bool_decide as Hext; simpl.
    + split; [by left|]. split; [done|]. split; [done|].
      by rewrite bool_decide_eq_true_2.
    + pose proof (extension_length_appended split_name_format _ _ _ no_dot_mp4) as Hlen.
      split; [by right; right|]. split; [lia|]. split; [done|].
      rewrite Hlen. by rewrite bool_decide_eq_true_2 by lia.
Qed.

(** X17: [_split_video] does nothing unless splitting is asked for; when it
    is, it first creates the output path and only then checks the tools; it
    calls a splitter exactly when ffmpeg is available and, for mkvmerge,
    mkvmerge too, so without ffmpeg nothing is split even with mkvmerge
    asked for and installed; otherwise it raises [BadParameter] with only the
    path created. *)
Theorem _split_video_actions (mkvmerge_available ffmpeg_available : bool)
    (path_in : list ascii → option (list ascii) → list ascii)
    (context : SplitOptions) (scene_list : list (Z * Z)) :
  let run := _split_video mkvmerge_available ffmpeg_available path_in context scene_list in
  let created :=
    GetAndCreatePath
      (split_file_name (split_mkvmerge context) (split_name_format context))
      (match split_directory context with
       | Some d => Some d
       | None => output_directory context
       end) in
  (split_video context = false → run = ([], Returns ()))
  ∧ (split_video context = true →
     (ffmpeg_available = true
      ∧ (split_mkvmerge context = true → mkvmerge_available = true) →
      ∃ split, run = ([created; split], Returns ())
               ∧ match split with
                 | SplitVideoMkvmerge input scenes _ _ =>
                     split_mkvmerge context = true
                     ∧ input = video_path context ∧ scenes = scene_list
                 | SplitVideoFfmpeg input scenes _ _ _ _ =>
                     split_mkvmerge context = false
                     ∧ input = video_path context ∧ scenes = scene_list
                 | GetAndCreatePath _ _ => False
                 end)
     ∧ (ffmpeg_available = false
        ∨ (split_mkvmerge context = true ∧ mkvmerge_available = false) →
        ∃ message, run = ([created], Raises (BadParameter message (lit "split-video"))))).
Proof.
  unfold _split_video, _check_split_video_requirements. split.
  - intros ->. done.
  - intros ->. simpl. split.
    + intros [-> Hmkv]. destruct (split_mkvmerge context) eqn:Hsplit.
      * rewrite Hmkv by done. simpl. eexists. split; [done|]. done.
      * simpl. eexists. split; [done|]. done.
    + intros [->|[-> ->]].
      * rewrite orb_true_r. by eexists.
      * simpl. by eexists.
Qed.

End split_video_facts.

Section writer_facts.

Lemma length_scene_row (i : nat) (scene : Z * Z) : length (scene_row i scene) = 10%nat.
Proof. by destruct scene. Qed.

(** X14: [write_scene_list] writes the header and then one row per scene, in
    order and numbered from 1, each with as many cells as the header; before
    them, when the cut list is included, one row that begins with the label
    "Timecode List:" only if a cut list is given and not empty, and otherwise
    holds nothing but the start timecodes of the scenes after the first. *)
Theorem write_scene_list_rows (scene_list : list (Z * Z)) (include_cut_list : bool)
    (cut_list : option (list Z)) :
  let rows := write_scene_list scene_list include_cut_list cut_list in
  let skip := if include_cut_list then 1%nat else 0%nat in
  length rows = (skip + 1 + length scene_list)%nat
  ∧ rows !! skip = Some header_row
  ∧ (∀ i scene, scene_list !! i = Some scene →
                rows !! (skip + 1 + i)%nat = Some (scene_row i scene))
  ∧ Forall (λ row, length row = length header_row) (drop skip rows)
  ∧ (include_cut_list = true →
     ∃ first, rows !! 0%nat = Some first
              ∧ (head first = Some (Text (lit "Timecode List:"))
                 ↔ truthy_list cut_list = true)
              ∧ (truthy_list cut_list = false →
                 first = (λ scene : Z * Z, Timecode scene.1) <$> drop 1 scene_list)).
Proof.
  unfold write_scene_list.
  assert (Hrows : ∀ i scene, scene_list !! i = Some scene →
            ([header_row] ++ imap scene_row scene_list) !! (1 + i)%nat
            = Some (scene_row i scene)).
  { intros i scene Hi. simpl. by rewrite list_lookup_imap, Hi. }
  assert (Hten : Forall (λ row, length row = length header_row)
                   ([header_row] ++ imap scene_row scene_list)).
  { constructor; [done|]. apply Forall_forall. intros row Hrow.
    apply list_elem_of_lookup in Hrow as [i Hi].
    rewrite list_lookup_imap in Hi.
    destruct (scene_list !! i) as [scene|]; [|done]. injection Hi as <-.
    apply length_scene_row. }
  destruct include_cut_list; simpl.
  - rewrite length_imap. split; [done|]. split; [done|]. split; [apply Hrows|].
    split; [exact Hten|]. intros _. eexists. split; [done|].
    destruct (truthy_list cut_list) eqn:Htruthy.
    + split; [done|]. done.
    + split; [|done]. split; [|done].
      destruct (drop 1 scene_list); simpl; [done|]. done.
  - rewrite length_imap. split; [done|]. split; [done|]. split; [apply Hrows|].
    split; [exact Hten|]. done.
Qed.

(** The rows of the scene table, from scene number [j] on. *)
Lemma html_rows_Returns (image_filenames : option (gmap nat (list (list ascii))))
    (image_width image_height : option Z) (scenes : list (Z * Z)) (j : nat) :
  (∀ images, image_filenames = Some images → images ≠ ∅ →
             ∀ i, (i < length scenes)%nat → is_Some (images !! (j + i)%nat)) →
  ∃ rows,
    collect_indexed (html_scene_row image_filenames image_width image_height) j scenes
    = Returns rows
    ∧ length rows = length scenes
    ∧ ∀ i scene, scenes !! i = Some scene →
        ∃ images, rows !! i = Some (scene_row (j + i) scene ++ images)
                  ∧ Forall (λ c, ∃ file, c = Image file image_width image_height) images.
Proof.
  revert j. induction scenes as [|scene scenes IH]; intros j Hkeys; simpl.
  { exists []. split; [done|]. split; [done|]. intros i scene Hi. done. }
  assert (∃ images,
            html_scene_row image_filenames image_width image_height j scene
            = Returns (scene_row j scene ++ images)
            ∧ Forall (λ c, ∃ file, c = Image file image_width image_height) images)
    as (images0 & Hrow & Himages0).
  { unfold html_scene_row. destruct image_filenames as [images|].
    - case_bool_decide as Hempty.
      + exists []. by rewrite app_nil_r.
      + destruct (Hkeys images eq_refl Hempty 0%nat) as [files Hfiles]; [simpl; lia|].
        rewrite Nat.add_0_r in Hfiles. rewrite Hfiles. eexists. split; [done|].
        apply Forall_fmap, Forall_forall. intros file _. by exists file.
    - exists []. by rewrite app_nil_r. }
  rewrite Hrow.
  destruct (IH (S j)) as (rows & -> & Hlen & Hrows).
  { intros images Himages Hne i Hi.
    replace (S j + i)%nat with (j + S i)%nat by lia.
    apply (Hkeys images Himages Hne). simpl. lia. }
  eexists. split; [done|]. split; [simpl; by rewrite Hlen|].
  intros [|i] scene' Hi; simpl in *.
  - injection Hi as <-. rewrite Nat.add_0_r. by exists images0.
  - destruct (Hrows i scene' Hi) as (images & Hr & Himages).
    exists images. replace (j + S i)%nat with (S j + i)%nat by lia. done.
Qed.

Lemma html_rows_Raises (images : gmap nat (list (list ascii)))
    (image_width image_height : option Z) (scenes : list (Z * Z)) (j : nat) :
  images ≠ ∅ →
  (∃ i, (i < length scenes)%nat ∧ images !! (j + i)%nat = None) →
  collect_indexed (html_scene_row (Some images) image_width image_height) j scenes
  = Raises KeyError.
Proof.
  intros Hne. revert j. induction scenes as [|scene scenes IH]; intros j (i & Hi & Hmissing).
  { simpl in Hi. lia. }
  cbn [collect_indexed].
  assert (html_scene_row (Some images) image_width image_height j scene
          = match images !! j with
            | Some files =>
                Returns (scene_row j scene
                         ++ ((λ image, Image image image_width image_height) <$> files))
            | None => Raises KeyError
            end) as ->.
  { unfold html_scene_row. by rewrite bool_decide_eq_false_2. }
  destruct (images !! j) as [files|] eqn:Hj; [|done].
  rewrite IH; [done|]. destruct i as [|i].
  - rewrite Nat.add_0_r in Hmissing. congruence.
  - exists i. split; [simpl in Hi; lia|].
    by replace (S j + i)%nat with (j + S i)%nat by lia.
Qed.

(** X15: [write_scene_list_html] saves nothing and raises
    [UnboundLocalError] when the scene list is empty, and [KeyError] when
    image file names are given, not empty, and lack the key of some scene;
    in every other case it saves a page whose timecode table begins with
    the label and whose scene table has one row per scene, in order: the ten
    cells of the scene followed by nothing but its images. *)
Theorem write_scene_list_html_outcome (default_css : list ascii)
    (scene_list : list (Z * Z)) (cut_list : option (list Z)) (css : option (list ascii))
    (image_filenames : option (gmap nat (list (list ascii))))
    (image_width image_height : option Z) :
  let run := write_scene_list_html default_css scene_list cut_list css
               image_filenames image_width image_height in
  let missing :=
    ∃ images i, image_filenames = Some images ∧ images ≠ ∅
                ∧ (i < length scene_list)%nat ∧ images !! i = None in
  (missing → run = Raises KeyError)
  ∧ (¬ missing → scene_list = [] → run = Raises UnboundLocalError)
  ∧ (¬ missing → scene_list ≠ [] →
     ∃ page, run = Returns page
             ∧ head (timecode_table page) = Some (Text (lit "Timecode List:"))
             ∧ scene_table_header page = header_row
             ∧ length (scene_table page) = length scene_list
             ∧ ∀ i scene, scene_list !! i = Some scene →
                 ∃ images,
                   scene_table page !! i = Some (scene_row i scene ++ images)
                   ∧ Forall (λ c, ∃ file, c = Image file image_width image_height)
                            images).
Proof.
  unfold write_scene_list_html. split; [|split].
  - intros (images & i & -> & Hne & Hi & Hmissing).
    rewrite html_rows_Raises; [done|done|]. by exists i.
  - intros _ ->. done.
  - intros Hpresent Hscenes.
    destruct (html_rows_Returns image_filenames image_width image_height scene_list 0)
      as (rows & -> & Hlen & Hrows).
    { intros images -> Hne i Hi. simpl.
      destruct (images !! i) eqn:Hlookup; [done|].
      destruct Hpresent. by exists images, i. }
    destruct rows as [|row rows].
    { destruct scene_list; [done|simpl in Hlen; lia]. }
    eexists. split; [done|]. simpl. split; [done|]. split; [done|].
    split; [done|]. intros i scene Hi. apply (Hrows i scene Hi).
Qed.

End writer_facts.

(** * The further properties at concrete inputs *)

Lemma manager_wf_ran (first final : Z) :
  manager_wf (Examples.ran first final true ∅).
Proof.
  split; [|split]; simpl; [apply map_Forall_empty| |lia].
  intros _. apply map_Forall_empty.
Qed.

Lemma manager_wf_kept_witness :
  manager_wf (clear Examples.fade_in_out)
  ∧ manager_wf (transform_events_to_cuts (@None unit) Examples.fade_in_out).2
  ∧ manager_wf (downscale_setter (Float 5 2) Examples.fade_in_out).2.
Proof.
  destruct (manager_wf_kept Examples.fade_in_out) as (_ & Hclear & Htransform & Hset & _).
  - apply manager_wf_add_events, manager_wf_ran.
  - split; [exact Hclear|]. split; [apply Htransform|apply Hset].
Defined.

Lemma get_event_list_add_events_sorted_witness :
  StronglySorted (λ e1 e2, time e1 ≤ time e2)
    (get_event_list (add_events Examples.fade_in_out
                       [Examples.ev CUT 30; Examples.ev OUT 5; Examples.ev IN 1])).
Proof.
  refine (proj1 (proj2 (get_event_list_add_events_sorted Examples.fade_in_out
                          [Examples.ev CUT 30; Examples.ev OUT 5; Examples.ev IN 1] _))).
  apply manager_wf_add_events, manager_wf_ran.
Defined.

Lemma get_scene_list_cuts_only_witness :
  get_scene_list true Examples.four_cuts
  = Ok (zip (0 :: get_cut_list 1 Examples.four_cuts)
            (get_cut_list 1 Examples.four_cuts ++ [60 + 1])).
Proof.
  refine (proj1 (get_scene_list_cuts_only Examples.four_cuts 0 60 _ _ _ _ _)).
  - apply manager_wf_add_events, manager_wf_ran.
  - reflexivity.
  - vm_compute. discriminate.
  - reflexivity.
  - reflexivity.
Defined.

Lemma get_scene_list_boundaries_witness :
  (length [(5, 12); (12, 20)] ≤ size (events Examples.fade_in_out) + 1)%nat.
Proof.
  refine (proj2 (get_scene_list_boundaries Examples.fade_in_out true
                   [(5, 12); (12, 20)] _)).
  vm_compute. reflexivity.
Defined.

Lemma get_scene_list_after_transform_witness :
  get_scene_list true (transform_events_to_cuts (@None unit) Examples.fade_in_out).2
  = Ok [].
Proof.
  refine (proj2 (get_scene_list_after_transform Examples.fade_in_out true _ _)).
  - reflexivity.
  - by exists 0.
Defined.

Lemma transform_events_to_cuts_cut_list_witness :
  get_cut_list 1 (transform_events_to_cuts (@None unit) Examples.fade_in_out).2
  = sorted_keys (events Examples.fade_in_out).
Proof.
  refine (proj1 (proj2 (transform_events_to_cuts_cut_list Examples.fade_in_out _))).
  apply manager_wf_add_events, manager_wf_ran.
Defined.

Lemma get_cut_list_spaced_witness :
  ∃ k, k ∈ get_cut_list 5 Examples.four_cuts ∧ k < 12 < k + 5.
Proof.
  refine (proj2 (proj2 (proj2 (get_cut_list_spaced 5 Examples.four_cuts)) _) 12 _ _).
  - lia.
  - vm_compute. right. left.
  - vm_compute. intros Hin.
    repeat (apply elem_of_cons in Hin as [Heq|Hin]; [discriminate Heq|]).
    by apply elem_of_nil in Hin.
Defined.

Lemma clear_forgets_run_witness :
  get_scene_list true (add_events (clear Examples.three_cuts) [Examples.ev CUT 70])
  = Raise AssertionError.
Proof.
  refine (proj2 (proj2 (proj2 (proj2 (proj2 (proj2
            (clear_forgets_run true 15 Examples.three_cuts)))))) _ _).
  discriminate.
Defined.

Lemma add_detector_spec_witness :
  detect_scenes None (λ _ im, im) 10 Run.five_frames None None 1 false None
    (add_detector (λ w, ((), w)) (λ _ _ w, (false, w)) Run.cut_at_2 Run.needs_cache
                  (Run.manager, 0)).1 0
  = Some (Raise ValueError,
          (add_detector (λ w, ((), w)) (λ _ _ w, (false, w)) Run.cut_at_2
                        Run.needs_cache (Run.manager, 0)).1, 0).
Proof.
  refine (proj2 (proj2 (proj2 (proj2 (proj2 (proj2 (proj2 (proj2
            (add_detector_spec (λ w, ((), w)) (λ _ _ w, (false, w)) Run.cut_at_2
               Run.needs_cache Run.manager 0))))))))
            _ None (λ _ im, im) 10%nat Run.five_frames None None 1 false None 0 _).
  - reflexivity.
  - lia.
Defined.

Lemma detect_scenes_result_witness :
  extends Run.manager Run.after_run
  ∧ last_pos Run.after_run = Some (video_position Run.five_frames 5)
  ∧ ∃ scenes, get_scene_list true Run.after_run = Ok scenes.
Proof.
  destruct (detect_scenes_result None (λ _ im, im) 10 Run.five_frames None None 0
              false None Run.manager 0 (Ok 5) Run.after_run 5) as [Hext Hok].
  - vm_compute. reflexivity.
  - destruct (Hok 5 eq_refl) as (_ & _ & Hlast & Hlist).
    split; [exact Hext|]. split; [exact Hlast|apply Hlist].
Defined.

Lemma compute_downscale_factor_range_witness :
  ∃ factor, compute_downscale_factor 1920 DEFAULT_MIN_WIDTH = Ok factor
            ∧ 1 ≤ factor
            ∧ (1920 < DEFAULT_MIN_WIDTH → factor = 1)
            ∧ (DEFAULT_MIN_WIDTH ≤ 1920 →
               DEFAULT_MIN_WIDTH ≤ 1920 `div` factor < 2 * DEFAULT_MIN_WIDTH).
Proof.
  refine (proj2 (compute_downscale_factor_range 1920 DEFAULT_MIN_WIDTH) _ _).
  - lia.
  - unfold DEFAULT_MIN_WIDTH. lia.
Defined.

Lemma save_images_timecodes_inside_witness :
  ∃ timecodes,
    save_images_timecodes [(0, 10); (10, 12)] 3 1 = Returns timecodes
    ∧ Forall2 (λ scene frames,
                 Z.of_nat (length frames) = 3
                 ∧ Forall (λ f, scene.1 ≤ f < scene.2) frames
                 ∧ StronglySorted Z.le frames
                 ∧ (3 = 1 → frames = [scene.1 + (scene.2 - scene.1) `div` 2]))
              [(0, 10); (10, 12)] timecodes.
Proof.
  refine (save_images_timecodes_inside [(0, 10); (10, 12)] 3 1 _ _ _).
  - lia.
  - lia.
  - repeat constructor.
Defined.

Lemma save_images_timecodes_raises_witness :
  save_images_timecodes [(0, 5); (5, 5)] 3 1 = Raises IndexError
  ∧ save_images_timecodes [(0, 5)] 0 1 = Raises (Builtin ValueError).
Proof.
  split.
  - refine (proj2 (proj2 (save_images_timecodes_raises [(0, 5); (5, 5)] 3 1)) _ _ _).
    + lia.
    + lia.
    + right. left. simpl. lia.
  - refine (proj1 (proj2 (save_images_timecodes_raises [(0, 5)] 0 1)) _ _).
    + discriminate.
    + left. lia.
Defined.

Lemma write_scene_list_rows_witness :
  write_scene_list [(0, 10); (10, 30)] true None !! 3%nat
  = Some (scene_row 1 (10, 30))
  ∧ ∃ first, write_scene_list [(0, 10); (10, 30)] true None !! 0%nat = Some first
             ∧ (head first = Some (Text (lit "Timecode List:"))
                ↔ truthy_list (@None (list Z)) = true)
             ∧ (truthy_list (@None (list Z)) = false →
                first = (λ scene : Z * Z, Timecode scene.1) <$> drop 1 [(0, 10); (10, 30)]).
Proof.
  destruct (write_scene_list_rows [(0, 10); (10, 30)] true None)
    as (_ & _ & Hrows & _ & Hfirst).
  split; [apply (Hrows 1%nat); reflexivity|]. apply Hfirst. reflexivity.
Defined.

Lemma write_scene_list_html_outcome_witness :
  write_scene_list_html (lit "") [] None None None None None = Raises UnboundLocalError
  ∧ write_scene_list_html (lit "") [(0, 10); (10, 30)] None None
      (Some {[ 0%nat := [lit "a.jpg"] ]}) None None = Raises KeyError.
Proof.
  split.
  - refine (proj1 (proj2 (write_scene_list_html_outcome (lit "") [] None None None
                            None None)) _ _).
    + intros (images & i & Himages & _). discriminate Himages.
    + reflexivity.
  - refine (proj1 (write_scene_list_html_outcome (lit "") [(0, 10); (10, 30)] None None
                     (Some {[ 0%nat := [lit "a.jpg"] ]}) None None) _).
    exists {[ 0%nat := [lit "a.jpg"] ]}, 1%nat. split; [reflexivity|]. split.
    + intros Hempty. apply (f_equal (λ m : gmap nat (list (list ascii)), m !! 0%nat)) in Hempty.
      rewrite lookup_singleton_eq, lookup_empty in Hempty. discriminate Hempty.
    + split; [simpl; lia|]. vm_compute. reflexivity.
Defined.

Lemma split_file_name_extension_witness :
  lit ".mkv" `suffix_of` split_file_name true (lit "$VIDEO_NAME-Scene-$SCENE_NUMBER.mp4").
Proof.
  refine (proj1 (proj2 (proj2 (split_file_name_extension true
                                 (lit "$VIDEO_NAME-Scene-$SCENE_NUMBER.mp4")))) _).
  reflexivity.
Defined.

Lemma _split_video_actions_witness :
  ∃ message,
    _split_video true false (λ name _, name) Run.split_options [(0, 10)]
    = ([GetAndCreatePath
          (split_file_name (split_mkvmerge Run.split_options)
                           (split_name_format Run.split_options))
          (match split_directory Run.split_options with
           | Some d => Some d
           | None => output_directory Run.split_options
           end)],
       Raises (BadParameter message (lit "split-video"))).
Proof.
  refine (proj2 (proj2 (_split_video_actions true false (λ name _, name)
                          Run.split_options [(0, 10)]) _) _).
  - reflexivity.
  - left. reflexivity.
Defined.
